(** * Doppler syslog sink and Metron event listener

    A shallow embedding of

    - [doppler/sinks/syslog/syslog_sink.go]: the per-drain delivery sink
      ([SyslogSink.Run], [Disconnect], [sendLogMessage],
      [messagePriorityValue]);
    - [metron/eventlistener/event_listener.go]: the UDP ingestion listener
      ([New], [Start], [Stop]).

    Goroutines are modelled by interleaving: every blocking point of the
    Go code is a program point, and a schedule is a list of labels, each
    label being one atomic move of one goroutine (or of the environment).
    Collaborators that the Go code reaches through an interface
    ([syslogwriter.Writer], [heartbeatRequester]) are type classes over an
    explicit collaborator state. *)

From Stdlib Require Import ZArith String List Bool Lia.
From stdpp Require Import base list.
Import ListNotations.

#[local] Open Scope string_scope.
#[local] Open Scope Z_scope.
#[local] Open Scope list_scope.

(** ** Go runtime notions shared by both packages *)

(** [FatalLog] is the panic that ends [Fatalf]: gosteno logs the line at
    the fatal level and panics with it. *)
Inductive PanicReason :=
| NilDereference
| CloseOfClosedChannel
| FatalLog (message : string).

Inductive Res (A : Type) :=
| Ok (a : A)
| Panic (r : PanicReason).
Arguments Ok {A} a.
Arguments Panic {A} r.

(** [close(ch)]: closing a channel that is already closed panics. *)
Definition close_chan (closed : bool) : Res bool :=
  if closed then Panic CloseOfClosedChannel else Ok true.

(** Go's [int] on the 64-bit targets doppler is built for: two's
    complement wrap-around. *)
Definition int_min : Z := - 2 ^ 63.
Definition int_max : Z := 2 ^ 63 - 1.
Definition wrap_int (z : Z) : Z := (z + 2 ^ 63) mod 2 ^ 64 - 2 ^ 63.

(** [uint64] as used by [atomic.AddUint64]. *)
Definition wrap_uint64 (z : Z) : Z := z mod 2 ^ 64.

Definition bytes := list Byte.byte.

(** An [error] value is represented by its [Error()] text. *)
Definition error := string.

(** ** sonde-go [events]: envelopes *)

Module events.

(** Modelled from the spec: the envelope types come from the generated
    protobuf package [github.com/cloudfoundry/sonde-go/events], which is
    not part of the sources.  The spec describes an envelope as a record
    tagged with an event-kind discriminant ([LogMessage] and other
    non-log kinds) that carries, for log-kind envelopes, message bytes,
    a message type, source type and instance, and a timestamp.  Pointer
    fields are options; the accessors are the nil-safe [Get...] methods
    the sink calls. *)
Inductive Envelope_EventType :=
| Envelope_Heartbeat
| Envelope_HttpStart
| Envelope_HttpStop
| Envelope_HttpStartStop
| Envelope_LogMessage
| Envelope_ValueMetric
| Envelope_CounterEvent
| Envelope_Error
| Envelope_ContainerMetric.

Definition EventType_eqb (a b : Envelope_EventType) : bool :=
  match a, b with
  | Envelope_Heartbeat, Envelope_Heartbeat
  | Envelope_HttpStart, Envelope_HttpStart
  | Envelope_HttpStop, Envelope_HttpStop
  | Envelope_HttpStartStop, Envelope_HttpStartStop
  | Envelope_LogMessage, Envelope_LogMessage
  | Envelope_ValueMetric, Envelope_ValueMetric
  | Envelope_CounterEvent, Envelope_CounterEvent
  | Envelope_Error, Envelope_Error
  | Envelope_ContainerMetric, Envelope_ContainerMetric => true
  | _, _ => false
  end.

(** [LogMessage_MessageType] is an [int32] enumeration; values other
    than the two named ones can be stored in it. *)
Definition LogMessage_MessageType := Z.
Definition LogMessage_OUT : LogMessage_MessageType := 1.
Definition LogMessage_ERR : LogMessage_MessageType := 2.

Record LogMessage := mkLogMessage {
  Message : bytes;
  MessageType : option LogMessage_MessageType;
  Timestamp : option Z;
  SourceType : option string;
  SourceInstance : option string
}.

Record CounterEvent := mkCounterEvent {
  Name : string;
  Delta : Z
}.

Record Envelope := mkEnvelope {
  Origin : string;
  EventType : Envelope_EventType;
  LogMessage_ : option LogMessage;
  CounterEvent_ : option CounterEvent
}.

Definition GetEventType (e : Envelope) : Envelope_EventType := EventType e.
Definition GetLogMessage (e : Envelope) : option LogMessage := LogMessage_ e.

(** The accessors below take the pointer, which may be nil. *)
Definition GetMessageType (m : option LogMessage) : LogMessage_MessageType :=
  match m with
  | Some l => match MessageType l with Some t => t | None => LogMessage_OUT end
  | None => LogMessage_OUT
  end.

Definition GetMessage (m : option LogMessage) : bytes :=
  match m with Some l => Message l | None => [] end.

Definition GetSourceType (m : option LogMessage) : string :=
  match m with
  | Some l => match SourceType l with Some s => s | None => EmptyString end
  | None => EmptyString
  end.

Definition GetSourceInstance (m : option LogMessage) : string :=
  match m with
  | Some l => match SourceInstance l with Some s => s | None => EmptyString end
  | None => EmptyString
  end.

Definition is_log (e : Envelope) : bool :=
  EventType_eqb (GetEventType e) Envelope_LogMessage.

End events.
Import events.

(** ** [doppler/sinks]: the truncating buffer *)

Module sinks.

(** Modelled from the spec: [sinks.RunTruncatingBuffer] is called by the
    sink but its package is not part of the sources.  Following the
    spec's Overflow Buffer: a relay of fixed capacity; when it is full
    and a new item arrives the oldest pending items are evicted to make
    room and counted; the count of items dropped since the last
    notification is handed to the consumer as one synthetic envelope of
    a non-log kind, carrying the origin tag; the output is closed once
    the input is closed and everything pending has been read. *)
Record TruncatingBuffer := mkBuffer {
  capacity : nat;
  origin : string;
  pending : list Envelope;
  droppedCount : nat;
  inputClosed : bool
}.

Definition RunTruncatingBuffer (bufferSize : nat) (dropsondeOrigin : string)
  : TruncatingBuffer :=
  mkBuffer bufferSize dropsondeOrigin [] 0 false.

(** An item arrives on the input channel. *)
Definition push (v : Envelope) (b : TruncatingBuffer) : TruncatingBuffer :=
  let all := pending b ++ [v] in
  let excess := (length all - capacity b)%nat in
  mkBuffer (capacity b) (origin b) (drop excess all)
           (droppedCount b + excess) (inputClosed b).

Definition closeInput (b : TruncatingBuffer) : TruncatingBuffer :=
  mkBuffer (capacity b) (origin b) (pending b) (droppedCount b) true.

Definition droppedNotification (b : TruncatingBuffer) (n : nat) : Envelope :=
  mkEnvelope (origin b) Envelope_CounterEvent None
             (Some (mkCounterEvent "TruncatingBuffer.DroppedMessages"
                                   (Z.of_nat n))).

(** What a receive on [GetOutputChannel()] yields. *)
Inductive Recv :=
| Item (e : Envelope) (b' : TruncatingBuffer)
| Closed
| Blocked.

Definition recv (b : TruncatingBuffer) : Recv :=
  match droppedCount b with
  | S _ =>
      Item (droppedNotification b (droppedCount b))
           (mkBuffer (capacity b) (origin b) (pending b) 0 (inputClosed b))
  | O =>
      match pending b with
      | e :: rest =>
          Item e (mkBuffer (capacity b) (origin b) rest 0 (inputClosed b))
      | [] => if inputClosed b then Closed else Blocked
      end
  end.

(** The producer sends [items] while the consumer is stalled. *)
Definition feed (items : list Envelope) (b : TruncatingBuffer)
  : TruncatingBuffer :=
  fold_left (fun acc v => push v acc) items b.

(** The consumer reads until nothing is left; at most [fuel] receives. *)
Fixpoint drain (fuel : nat) (b : TruncatingBuffer) : list Envelope :=
  match fuel with
  | O => []
  | S k =>
      match recv b with
      | Item e b' => e :: drain k b'
      | Closed | Blocked => []
      end
  end.

(** Any use of the buffer: the producer side and the consumer side in
    some interleaving. *)
Inductive BufOp :=
| OpPush (v : Envelope)
| OpRecv
| OpCloseInput.

Definition apply_op (b : TruncatingBuffer) (o : BufOp) : TruncatingBuffer :=
  match o with
  | OpPush v => push v b
  | OpRecv => match recv b with Item _ b' => b' | Closed | Blocked => b end
  | OpCloseInput => closeInput b
  end.

Definition apply_ops (ops : list BufOp) (b : TruncatingBuffer)
  : TruncatingBuffer :=
  fold_left apply_op ops b.

End sinks.

(** ** [doppler/sinks/syslogwriter]: the writer capability *)

Module syslogwriter.

(** The [Writer] interface the sink is generic over.  [W] is the state
    of the implementation (its connection, the remote end); every method
    threads it.  [Write] returns the byte count and the error. *)
Class Writer (W : Type) := {
  Connect : W -> W * option error;
  Write : Z -> bytes -> string -> string -> Z -> W -> W * (Z * option error);
  Close : W -> W
}.

End syslogwriter.
Import syslogwriter.

(** ** [doppler/sinks/syslog]: the sink *)

Module syslog.
Import sinks.

(** [messagePriorityValue]. *)
Definition messagePriorityValue (msg : option LogMessage) : Z :=
  let t := GetMessageType msg in
  if t =? LogMessage_OUT then 14
  else if t =? LogMessage_ERR then 11
  else -1.

Inductive LogLevel := Debug | Info | Error_.

(** The log statements of [Run], by their format string. *)
Inductive LogLine :=
| LogRunning
| LogStopped
| LogStartingLoop (backoff : Z)
| LogNotConnected
| LogConnected
| LogWaiting
| LogClosedListener
| LogSendError (err : error).

(** What the sink does to its collaborators, in the order it does it. *)
Inductive Effect :=
| EvLog (lvl : LogLevel) (line : LogLine)
| EvConnect (err : option error)
| EvHandleSendError (errorMessage appId drainUrl : string)
| EvTimerReset (d : Z)
| EvWrite (priority : Z) (message : bytes) (sourceType sourceInstance : string)
          (timestamp : Z) (err : option error)
| EvClose
| EvTimerStop
| EvCloseDisconnectChannel.

(** Where the goroutine of [Run] stands: at the top of the [for], blocked
    in the [select] of the backoff wait, blocked in the [select] on the
    buffer output, or returned. *)
Inductive PC := AtLoopHead | InBackoffSelect | InActivitySelect | Returned.

(** A [time.Timer]: [armed] while it is counting down, [C] when a tick
    sits in its channel. *)
Record Timer := mkTimer { armed : bool; C : bool }.

Inductive Label :=
| MainHead           (* Run: from the top of the loop to the next select *)
| SelectDisconnect   (* Run: a select takes <-s.disconnectChannel *)
| SelectTimer        (* Run: the backoff select takes <-timer.C *)
| SelectItem         (* Run: the activity select takes the buffer output *)
| TimerFire          (* runtime: the timer expires *)
| CallDisconnect     (* any goroutine: s.Disconnect() *)
| Input (v : Envelope) (* filter goroutine: receives v from inputChan *)
| InputClose         (* filter goroutine: inputChan is closed *)
| FilterDisconnect.  (* filter goroutine: takes <-s.disconnectChannel *)

Definition is_failed_connect (e : Effect) : bool :=
  match e with EvConnect (Some _) => true | _ => false end.
Definition is_failed_write (e : Effect) : bool :=
  match e with EvWrite _ _ _ _ _ (Some _) => true | _ => false end.
Definition is_write (e : Effect) : bool :=
  match e with EvWrite _ _ _ _ _ _ => true | _ => false end.
Definition is_close_disconnect (e : Effect) : bool :=
  match e with EvCloseDisconnectChannel => true | _ => false end.
Definition is_CallDisconnect (l : Label) : bool :=
  match l with CallDisconnect => true | _ => false end.

(** A [Write] in a trace is the write of a log-kind envelope among [seen]. *)
Definition written_from (seen : list Envelope) (e : Effect) : Prop :=
  match e with
  | EvWrite priority message sourceType sourceInstance timestamp _ =>
      exists (v : Envelope) (l : LogMessage),
        In v seen
        /\ GetEventType v = Envelope_LogMessage
        /\ GetLogMessage v = Some l
        /\ Timestamp l = Some timestamp
        /\ priority = messagePriorityValue (Some l)
        /\ message = Message l
        /\ sourceType = GetSourceType (Some l)
        /\ sourceInstance = GetSourceInstance (Some l)
  | _ => True
  end.

Definition connect_results (tr : list Effect) : list (option error) :=
  flat_map (fun e => match e with EvConnect r => [r] | _ => [] end) tr.

Section Sink.
Context {W : Type} `{!Writer W}.

(** [retrystrategy.NewExponentialRetryStrategy()] and the [%v]
    formatting of a [time.Duration] are outside the sources. *)
Variable backoffStrategy : Z -> Z.
Variable formatDuration : Z -> string.

(** The fields [Run] and [Disconnect] use.  [disconnectChannel] is
    [true] once the channel is closed, [disconnectOnce] once the
    [sync.Once] has run.  The callback [handleSendError] is recorded
    as the effect [EvHandleSendError]. *)
Record SyslogSink := mkSink {
  appId : string;
  drainUrl : string;
  messageDrainBufferSize : nat;
  syslogWriter : W;
  disconnectChannel : bool;
  dropsondeOrigin : string;
  disconnectOnce : bool
}.

Definition NewSyslogSink (appId drainUrl : string)
    (messageDrainBufferSize : nat) (syslogWriter : W)
    (dropsondeOrigin : string) : SyslogSink :=
  mkSink appId drainUrl messageDrainBufferSize syslogWriter false
         dropsondeOrigin false.

Definition Identifier (s : SyslogSink) : string := drainUrl s.
Definition StreamId (s : SyslogSink) : string := appId s.
Definition ShouldReceiveErrors (s : SyslogSink) : bool := false.

(** [Disconnect]: [s.disconnectOnce.Do(func() { close(s.disconnectChannel) })]. *)
Definition Disconnect (s : SyslogSink) : Res (SyslogSink * list Effect) :=
  if disconnectOnce s then Ok (s, [])
  else
    match close_chan (disconnectChannel s) with
    | Panic r => Panic r
    | Ok c =>
        Ok (mkSink (appId s) (drainUrl s) (messageDrainBufferSize s)
                   (syslogWriter s) c (dropsondeOrigin s) true,
            [EvCloseDisconnectChannel])
    end.

(** [sendLogMessage]: the arguments are evaluated (the dereference of
    [logMessage.Timestamp] faults on a nil message or a nil
    timestamp) before [Write] is called. *)
Definition sendLogMessage (wr : W) (logMessage : option LogMessage)
  : Res (W * Effect * option error) :=
  let priority := messagePriorityValue logMessage in
  let message := GetMessage logMessage in
  let sourceType := GetSourceType logMessage in
  let sourceInstance := GetSourceInstance logMessage in
  match logMessage with
  | None => Panic NilDereference
  | Some l =>
      match Timestamp l with
      | None => Panic NilDereference
      | Some ts =>
          let '(wr', (_, err)) :=
            Write priority message sourceType sourceInstance ts wr in
          Ok (wr',
              EvWrite priority message sourceType sourceInstance ts err,
              err)
      end
  end.

Definition dialErrorMsg (drainUrl : string) (sleepDuration : Z)
    (err : error) : string :=
  ("Syslog Sink " ++ drainUrl
     ++ ": Error when dialing out. Backing off for "
     ++ formatDuration sleepDuration ++ ". Err: " ++ err)%string.

(** The sink, the locals of [Run], the filter goroutine, the buffer
    and the effects so far. *)
Record World := mkWorld {
  sink : SyslogSink;
  pc : PC;
  numberOfTries : Z;
  connected : bool;
  timer : Timer;
  filterRunning : bool;
  buffer : TruncatingBuffer;
  crashed : option PanicReason;
  trace : list Effect
}.

Definition set_sink (s : SyslogSink) (w : World) : World :=
  mkWorld s (pc w) (numberOfTries w) (connected w) (timer w)
          (filterRunning w) (buffer w) (crashed w) (trace w).
Definition set_writer (wr : W) (w : World) : World :=
  let s := sink w in
  set_sink (mkSink (appId s) (drainUrl s) (messageDrainBufferSize s) wr
                   (disconnectChannel s) (dropsondeOrigin s)
                   (disconnectOnce s)) w.
Definition set_pc (p : PC) (w : World) : World :=
  mkWorld (sink w) p (numberOfTries w) (connected w) (timer w)
          (filterRunning w) (buffer w) (crashed w) (trace w).
Definition set_tries (n : Z) (w : World) : World :=
  mkWorld (sink w) (pc w) n (connected w) (timer w)
          (filterRunning w) (buffer w) (crashed w) (trace w).
Definition set_connected (c : bool) (w : World) : World :=
  mkWorld (sink w) (pc w) (numberOfTries w) c (timer w)
          (filterRunning w) (buffer w) (crashed w) (trace w).
Definition set_timer (t : Timer) (w : World) : World :=
  mkWorld (sink w) (pc w) (numberOfTries w) (connected w) t
          (filterRunning w) (buffer w) (crashed w) (trace w).
Definition set_filter (f : bool) (w : World) : World :=
  mkWorld (sink w) (pc w) (numberOfTries w) (connected w) (timer w)
          f (buffer w) (crashed w) (trace w).
Definition set_buffer (b : TruncatingBuffer) (w : World) : World :=
  mkWorld (sink w) (pc w) (numberOfTries w) (connected w) (timer w)
          (filterRunning w) b (crashed w) (trace w).
Definition set_crashed (r : PanicReason) (w : World) : World :=
  mkWorld (sink w) (pc w) (numberOfTries w) (connected w) (timer w)
          (filterRunning w) (buffer w) (Some r) (trace w).
Definition emit (evs : list Effect) (w : World) : World :=
  mkWorld (sink w) (pc w) (numberOfTries w) (connected w) (timer w)
          (filterRunning w) (buffer w) (crashed w) (trace w ++ evs).

(** [Run] up to the [for]: the filter goroutine is started, the buffer
    and the timer are created. *)
Definition Run_enter (s : SyslogSink) : World :=
  mkWorld s AtLoopHead 0 false (mkTimer true false) true
          (RunTruncatingBuffer (messageDrainBufferSize s)
                               (dropsondeOrigin s))
          None
          [EvLog Info LogRunning;
           EvLog Debug (LogStartingLoop (backoffStrategy 0))].

(** Leaving [Run]: the deferred calls, last registered first. *)
Definition Run_return (w : World) : World :=
  let w1 := set_writer (Close (syslogWriter (sink w))) w in
  let w2 := set_timer (mkTimer false (C (timer w1))) w1 in
  set_pc Returned (emit [EvClose; EvTimerStop; EvLog Error_ LogStopped] w2).

(** From the top of the [for] to the next [select]. *)
Definition loop_head (w : World) : World :=
  if connected w then
    set_pc InActivitySelect (emit [EvLog Debug LogWaiting] w)
  else
    let s := sink w in
    let '(wr, err) := Connect (syslogWriter s) in
    let w1 := set_writer wr w in
    match err with
    | Some e =>
        let sleepDuration := backoffStrategy (numberOfTries w) in
        let errorMsg := dialErrorMsg (drainUrl s) sleepDuration e in
        let w2 :=
          emit [EvLog Debug LogNotConnected; EvConnect (Some e);
                EvHandleSendError errorMsg (appId s) (drainUrl s);
                EvTimerReset sleepDuration] w1 in
        set_pc InBackoffSelect
               (set_timer (mkTimer true (C (timer w2))) w2)
    | None =>
        set_pc InActivitySelect
               (set_connected true
                  (emit [EvLog Debug LogNotConnected; EvConnect None;
                         EvLog Info LogConnected; EvLog Debug LogWaiting]
                        w1))
    end.

(** The activity [select] receives from [buffer.GetOutputChannel()]. *)
Definition select_item (w : World) : option World :=
  match recv (buffer w) with
  | Blocked => None
  | Closed => Some (Run_return (emit [EvLog Debug LogClosedListener] w))
  | Item messageEnvelope b' =>
      let w1 := set_buffer b' w in
      if EventType_eqb (GetEventType messageEnvelope) Envelope_LogMessage
      then
        match sendLogMessage (syslogWriter (sink w1))
                             (GetLogMessage messageEnvelope) with
        | Panic r => Some (set_crashed r (Run_return w1))
        | Ok (wr, call, None) =>
            Some (set_pc AtLoopHead
                    (set_connected true
                       (set_tries 0 (emit [call] (set_writer wr w1)))))
        | Ok (wr, call, Some e) =>
            Some (set_pc AtLoopHead
                    (set_connected false
                       (set_tries (wrap_int (numberOfTries w + 1))
                          (emit [call; EvLog Debug (LogSendError e)]
                                (set_writer wr w1)))))
        end
      else Some (set_pc AtLoopHead w1)
  end.

Definition at_select (p : PC) : bool :=
  match p with InBackoffSelect | InActivitySelect => true | _ => false end.

(** One move of one goroutine; [None] when the move is not enabled. *)
Definition step (l : Label) (w : World) : option World :=
  match crashed w with
  | Some _ => None
  | None =>
      match l with
      | MainHead =>
          match pc w with AtLoopHead => Some (loop_head w) | _ => None end
      | SelectDisconnect =>
          if at_select (pc w) && disconnectChannel (sink w)
          then Some (Run_return w) else None
      | SelectTimer =>
          match pc w with
          | InBackoffSelect =>
              if C (timer w) then
                Some (set_pc AtLoopHead
                        (set_tries (wrap_int (numberOfTries w + 1))
                           (set_timer (mkTimer (armed (timer w)) false) w)))
              else None
          | _ => None
          end
      | SelectItem =>
          match pc w with InActivitySelect => select_item w | _ => None end
      | TimerFire =>
          if armed (timer w) then Some (set_timer (mkTimer false true) w)
          else None
      | CallDisconnect =>
          match Disconnect (sink w) with
          | Ok (s', evs) => Some (emit evs (set_sink s' w))
          | Panic r => Some (set_crashed r w)
          end
      | Input v =>
          if filterRunning w then
            if EventType_eqb (GetEventType v) Envelope_LogMessage
            then Some (set_buffer (push v (buffer w)) w)
            else Some w
          else None
      | InputClose =>
          if filterRunning w
          then Some (set_buffer (closeInput (buffer w)) (set_filter false w))
          else None
      | FilterDisconnect =>
          if filterRunning w && disconnectChannel (sink w)
          then Some (set_buffer (closeInput (buffer w)) (set_filter false w))
          else None
      end
  end.

Fixpoint run (ls : list Label) (w : World) : option World :=
  match ls with
  | [] => Some w
  | l :: rest =>
      match step l w with
      | Some w' => run rest w'
      | None => None
      end
  end.

(** The filter stage in front of the buffer: what is pending is of the
    log kind and came in on [inputChan], and so did what was written. *)
Definition filter_inv (seen : list Envelope) (w : World) : Prop :=
  Forall (fun e => GetEventType e = Envelope_LogMessage /\ In e seen)
         (pending (buffer w))
  /\ Forall (written_from seen) (trace w).

(** How the attempt counter stands to the results of [Connect] as long
    as nothing has been written: after [k] failed connects whose backoff
    waits are over it is [k]; inside the wait of the last failure it does
    not count that failure yet; a successful connect leaves it alone. *)
Definition tries_inv (w : World) : Prop :=
  List.filter is_write (trace w) = [] ->
  let cr := connect_results (trace w) in
  (Forall (fun r => r <> None) cr
   /\ connected w = false
   /\ ((pc w = AtLoopHead
        /\ numberOfTries w = wrap_int (Z.of_nat (length cr)))
       \/ ((pc w = InBackoffSelect \/ pc w = Returned)
           /\ exists k : nat,
               length cr = S k /\ numberOfTries w = wrap_int (Z.of_nat k))))
  \/ (exists cr' : list (option error),
        cr = cr' ++ [None]
        /\ Forall (fun r => r <> None) cr'
        /\ connected w = true
        /\ pc w <> InBackoffSelect
        /\ numberOfTries w = wrap_int (Z.of_nat (length cr'))).

(** The channel is closed exactly when the [sync.Once] has run: nothing
    but [Disconnect] closes it. *)
Definition once_inv (s : SyslogSink) : Prop :=
  disconnectChannel s = disconnectOnce s.

(** [n] calls of [Disconnect] in a row, with the effects of all of them. *)
Fixpoint Disconnect_n (n : nat) (s : SyslogSink)
  : Res (SyslogSink * list Effect) :=
  match n with
  | O => Ok (s, [])
  | S k =>
      match Disconnect s with
      | Panic r => Panic r
      | Ok (s1, evs1) =>
          match Disconnect_n k s1 with
          | Panic r => Panic r
          | Ok (s2, evs2) => Ok (s2, evs1 ++ evs2)
          end
      end
  end.

End Sink.

(** The writer as [Run] drives it: not connected, connected, or closed.
    [link_step] follows one effect; it is [None] when the effect is a call
    the state does not allow ([Connect] while connected, [Write] while
    not connected, any call after [Close]). *)
Inductive Link := Disconnected | Connected | LinkClosed.

Definition link_step (st : Link) (e : Effect) : option Link :=
  match e with
  | EvConnect r =>
      match st with
      | Disconnected =>
          Some (match r with None => Connected | Some _ => Disconnected end)
      | _ => None
      end
  | EvWrite _ _ _ _ _ r =>
      match st with
      | Connected =>
          Some (match r with None => Connected | Some _ => Disconnected end)
      | _ => None
      end
  | EvClose =>
      match st with
      | LinkClosed => None
      | _ => Some LinkClosed
      end
  | _ => Some st
  end.

Fixpoint link_run (st : Link) (tr : list Effect) : option Link :=
  match tr with
  | [] => Some st
  | e :: rest =>
      match link_step st e with
      | Some st' => link_run st' rest
      | None => None
      end
  end.

(** The state of the writer as the locals of [Run] have it. *)
Definition link_of {W : Type} (w : @World W) : Link :=
  match pc w with
  | Returned => LinkClosed
  | _ => if connected w then Connected else Disconnected
  end.

Definition is_connect (e : Effect) : bool :=
  match e with EvConnect _ => true | _ => false end.

(** The durations the timer was reset to, in order. *)
Definition timer_resets (tr : list Effect) : list Z :=
  flat_map (fun e => match e with EvTimerReset d => [d] | _ => [] end) tr.

(** Failed connects and failed writes in a trace. *)
Definition failures (tr : list Effect) : nat :=
  length (List.filter is_failed_connect tr)
  + length (List.filter is_failed_write tr).

(** The envelopes a schedule puts on [inputChan]. *)
Definition inputs (ls : list Label) : list Envelope :=
  flat_map (fun l => match l with Input v => [v] | _ => [] end) ls.

End syslog.

(** ** [metron/eventlistener]: the UDP listener *)

Module eventlistener.

(** A [net.Addr] by its text, a [net.PacketConn] by its descriptor. *)
Definition Addr := string.
Definition PacketConn := nat.

(** The [heartbeatRequester] interface over the state [R] of its
    implementation. *)
Class heartbeatRequester (R : Type) := {
  Start : Addr -> PacketConn -> R -> R;
  KnownAndReset : Addr -> R -> bool * R
}.

(** *** Byte slices in a store

    [Start] reads every datagram into one scratch array and sends a
    slice on a channel, so slices are references: [base] is the address
    of the backing array in the store, [len] the length of the slice
    (which always starts at index 0 here). *)
Record Slice := mkSlice { base : nat; len : nat }.

Abbreviation Heap := (list bytes).

Definition array (h : Heap) (a : nat) : bytes := default [] (h !! a).

(** The bytes a slice denotes in a store. *)
Definition load (h : Heap) (s : Slice) : bytes :=
  take (len s) (array h (base s)).

(** [make([]byte, n)]: a fresh zeroed array at the next free address. *)
Definition make (n : nat) (h : Heap) : Slice * Heap :=
  (mkSlice (length h) n, h ++ [replicate n Byte.x00]).

(** Overwrite the first [length data] bytes of the array at [a]. *)
Definition write_prefix (a : nat) (data : bytes) (h : Heap) : Heap :=
  <[a := data ++ drop (length data) (array h a)]> h.

(** [copy(dst, src)]: as many bytes as the shorter of the two holds. *)
Definition copy (dst src : Slice) (h : Heap) : Heap :=
  let n := Nat.min (len dst) (len src) in
  write_prefix (base dst) (take n (load h src)) h.

(** [connection.ReadFrom(buf)] on a datagram: the payload goes to the
    front of [buf], what does not fit is discarded, the count comes back. *)
Definition ReadFrom (buf : Slice) (payload : bytes) (h : Heap) : nat * Heap :=
  let readCount := Nat.min (length payload) (len buf) in
  (readCount, write_prefix (base buf) (take readCount payload) h).

(** The size of the read buffer and the capacity of the data channel. *)
Definition readBufferSize : nat := Z.to_nat 65535.
Definition dataChannelCap : nat := Z.to_nat 1024.

(** Calls on the requester, in order.  [GoStart] is the [go] statement. *)
Inductive ReqCall :=
| CallKnownAndReset (senderAddr : Addr) (known : bool)
| GoStart (senderAddr : Addr) (conn : PacketConn).

(** Where the goroutine of [Start] stands: not yet called, past a
    successful [ListenPacket] and before it takes the lock, blocked in
    [ReadFrom], blocked in the send on [dataChannel], returned after a
    read error, or ended by [Fatalf]. *)
Inductive PC :=
| NotStarted
| Bound (conn : PacketConn)
| Reading (readBuffer : Slice) (conn : PacketConn)
| Sending (readBuffer : Slice) (conn : PacketConn)
          (readData : Slice) (senderAddr : Addr)
| Returned
| Exited.

Inductive Label :=
| Listen (r : PacketConn + error)
    (* Start: ListenPacket returns; up to the lock *)
| StoreConnection
    (* Start: stores the connection under the lock; up to the first ReadFrom *)
| Datagram (payload : bytes) (senderAddr : Addr)
    (* Start: ReadFrom returns a datagram; up to the channel send *)
| Publish
    (* Start: the channel send goes through; up to the next ReadFrom *)
| ReadError
    (* Start: ReadFrom returns an error *)
| Receive
    (* the consumer takes one payload from the channel *)
| RunStart (i : nat)
    (* the i-th spawned requester.Start goroutine runs *)
| CallStop.
    (* any goroutine: eventListener.Stop() *)

Section Listener.
Context {R : Type} `{!heartbeatRequester R}.

(** The struct; [dataChannel] is the queue of the buffered channel, oldest
    first.  The lock is held only inside single moves and is left out. *)
Record EventListener := mkListener {
  host : string;
  dataChannel : list Slice;
  dataChannelClosed : bool;
  connection : option PacketConn;
  requester : R;
  receivedMessageCount : Z;
  receivedByteCount : Z;
  contextName : string
}.

Definition New (host name : string) (requester : R) : EventListener :=
  mkListener host [] false None requester 0 0 name.

(** [metrics]: currentBufferCount, receivedMessageCount, receivedByteCount. *)
Definition metrics (e : EventListener) : Z * Z * Z :=
  (Z.of_nat (length (dataChannel e)), receivedMessageCount e,
   receivedByteCount e).

(** [Emit]: the context name with the metrics. *)
Definition Emit (e : EventListener) : string * (Z * Z * Z) :=
  (contextName e, metrics e).

(** The listener, the goroutine of [Start], the store, the socket, the
    spawned [Start] calls not yet run, and three histories: slices sent
    on the channel, slices the consumer received, calls on the requester. *)
Record World := mkWorld {
  listener : EventListener;
  pc : PC;
  heap : Heap;
  connClosed : bool;
  goroutines : list (Addr * PacketConn);
  published : list Slice;
  received : list Slice;
  calls : list ReqCall;
  crashed : option PanicReason
}.

Definition init (e : EventListener) : World :=
  mkWorld e NotStarted [] false [] [] [] [] None.

Definition set_listener (e : EventListener) (w : World) : World :=
  mkWorld e (pc w) (heap w) (connClosed w) (goroutines w) (published w)
          (received w) (calls w) (crashed w).
Definition set_pc (p : PC) (w : World) : World :=
  mkWorld (listener w) p (heap w) (connClosed w) (goroutines w) (published w)
          (received w) (calls w) (crashed w).
Definition set_heap (h : Heap) (w : World) : World :=
  mkWorld (listener w) (pc w) h (connClosed w) (goroutines w) (published w)
          (received w) (calls w) (crashed w).

(** [Stop]: [eventListener.connection.Close()] under the lock; the
    connection is a nil interface until [Start] has stored it. *)
Definition Stop (w : World) : Res World :=
  match connection (listener w) with
  | None => Panic NilDereference
  | Some _ =>
      Ok (mkWorld (listener w) (pc w) (heap w) true (goroutines w)
                  (published w) (received w) (calls w) (crashed w))
  end.

(** [Start] from its first line to the lock: the bind.  When it fails,
    [Fatalf] panics with its line and takes the process down (were it to
    return, the type assertion on the nil connection in the next line
    would fault in its place); nothing moves after that.  When it
    succeeds, the listener still has its nil connection until [Start]
    has taken the lock.  ([SetReadBuffer] and the [Infof] line have no
    part in the model.) *)
Definition Start_listen (r : PacketConn + error) (w : World) : World :=
  match r with
  | inr err =>
      mkWorld (listener w) Exited (heap w) (connClosed w) (goroutines w)
              (published w) (received w) (calls w)
              (Some (FatalLog ("Failed to listen on port. " ++ err)))
  | inl conn => set_pc (Bound conn) w
  end.

(** The assignment of the connection under the lock and the allocation
    of the read buffer, up to the first [ReadFrom]. *)
Definition Start_store (conn : PacketConn) (w : World) : World :=
  let e := listener w in
  let e' := mkListener (host e) (dataChannel e) (dataChannelClosed e)
                       (Some conn) (requester e)
                       (receivedMessageCount e) (receivedByteCount e)
                       (contextName e) in
  let '(readBuffer, h) := make readBufferSize (heap w) in
  set_pc (Reading readBuffer conn) (set_heap h (set_listener e' w)).

(** One datagram: read, copy into a right-sized slice, count. *)
Definition Start_read (readBuffer : Slice) (conn : PacketConn)
    (payload : bytes) (senderAddr : Addr) (w : World) : World :=
  let '(readCount, h1) := ReadFrom readBuffer payload (heap w) in
  let '(readData, h2) := make readCount h1 in
  let h3 := copy readData (mkSlice (base readBuffer) readCount) h2 in
  let e := listener w in
  let e' := mkListener (host e) (dataChannel e) (dataChannelClosed e)
                       (connection e) (requester e)
                       (wrap_uint64 (receivedMessageCount e + 1))
                       (wrap_uint64 (receivedByteCount e + Z.of_nat readCount))
                       (contextName e) in
  set_pc (Sending readBuffer conn readData senderAddr)
         (set_heap h3 (set_listener e' w)).

(** The send on [dataChannel], then the liveness check. *)
Definition Start_publish (readBuffer : Slice) (conn : PacketConn)
    (readData : Slice) (senderAddr : Addr) (w : World) : World :=
  let e := listener w in
  let '(known, r') := KnownAndReset senderAddr (requester e) in
  let e' := mkListener (host e) (dataChannel e ++ [readData])
                       (dataChannelClosed e) (connection e) r'
                       (receivedMessageCount e) (receivedByteCount e)
                       (contextName e) in
  mkWorld e' (Reading readBuffer conn) (heap w) (connClosed w)
          (if known then goroutines w
           else goroutines w ++ [(senderAddr, conn)])
          (published w ++ [readData]) (received w)
          (calls w ++ CallKnownAndReset senderAddr known
                   :: (if known then [] else [GoStart senderAddr conn]))
          (crashed w).

(** The read error path: [return], and the deferred [close(dataChannel)]. *)
Definition Start_return (w : World) : World :=
  let e := listener w in
  let e' := mkListener (host e) (dataChannel e) true (connection e)
                       (requester e) (receivedMessageCount e)
                       (receivedByteCount e) (contextName e) in
  set_pc Returned (set_listener e' w).

Definition consume (w : World) : option World :=
  let e := listener w in
  match dataChannel e with
  | [] => None
  | s :: rest =>
      let e' := mkListener (host e) rest (dataChannelClosed e) (connection e)
                           (requester e) (receivedMessageCount e)
                           (receivedByteCount e) (contextName e) in
      Some (mkWorld e' (pc w) (heap w) (connClosed w) (goroutines w)
                    (published w) (received w ++ [s]) (calls w) (crashed w))
  end.

Definition run_goroutine (i : nat) (w : World) : option World :=
  match goroutines w !! i with
  | None => None
  | Some (senderAddr, conn) =>
      let e := listener w in
      let e' := mkListener (host e) (dataChannel e) (dataChannelClosed e)
                           (connection e)
                           (Start senderAddr conn (requester e))
                           (receivedMessageCount e) (receivedByteCount e)
                           (contextName e) in
      Some (mkWorld e' (pc w) (heap w) (connClosed w)
                    (delete i (goroutines w))
                    (published w) (received w) (calls w) (crashed w))
  end.

(** One move; [None] when the move is not enabled. *)
Definition step (l : Label) (w : World) : option World :=
  match crashed w with
  | Some _ => None
  | None =>
      match l, pc w with
      | _, Exited => None
      | Listen r, NotStarted => Some (Start_listen r w)
      | StoreConnection, Bound conn => Some (Start_store conn w)
      | Datagram payload senderAddr, Reading readBuffer conn =>
          if connClosed w then None
          else Some (Start_read readBuffer conn payload senderAddr w)
      | Publish, Sending readBuffer conn readData senderAddr =>
          if (length (dataChannel (listener w)) <? dataChannelCap)%nat
          then Some (Start_publish readBuffer conn readData senderAddr w)
          else None
      | ReadError, Reading _ _ => Some (Start_return w)
      | Receive, _ => consume w
      | RunStart i, _ => run_goroutine i w
      | CallStop, _ =>
          match Stop w with
          | Ok w' => Some w'
          | Panic r =>
              Some (mkWorld (listener w) (pc w) (heap w) (connClosed w)
                            (goroutines w) (published w) (received w)
                            (calls w) (Some r))
          end
      | _, _ => None
      end
  end.

Fixpoint run (ls : list Label) (w : World) : option World :=
  match ls with
  | [] => Some w
  | l :: rest =>
      match step l w with
      | Some w' => run rest w'
      | None => None
      end
  end.

(** The read buffer of a running [Start], and the slice it is about to
    send, read from the program point. *)
Definition scratch (p : PC) : option Slice :=
  match p with
  | Reading readBuffer _ | Sending readBuffer _ _ _ => Some readBuffer
  | _ => None
  end.
Definition in_flight (p : PC) : list Slice :=
  match p with
  | Sending _ _ readData _ => [readData]
  | _ => []
  end.

(** The number of bytes [ReadFrom] reports for a payload. *)
Definition read_count (payload : bytes) : nat :=
  Nat.min (length payload) readBufferSize.

(** The payloads of the datagrams a schedule delivers, in order. *)
Definition datagrams (ls : list Label) : list bytes :=
  flat_map (fun l => match l with Datagram p _ => [p] | _ => [] end) ls.

End Listener.

(** Projections of the calls on the requester, by sender address. *)
Definition is_start_for (a : Addr) (c : ReqCall) : bool :=
  match c with GoStart a' _ => String.eqb a a' | _ => false end.
Definition is_unknown_for (a : Addr) (c : ReqCall) : bool :=
  match c with
  | CallKnownAndReset a' false => String.eqb a a'
  | _ => false
  end.
Definition is_check (c : ReqCall) : bool :=
  match c with CallKnownAndReset _ _ => true | _ => false end.
Definition is_Publish (l : Label) : bool :=
  match l with Publish => true | _ => false end.
(** The move that makes the bound socket the listener's connection. *)
Definition is_bound (l : Label) : bool :=
  match l with StoreConnection => true | _ => false end.

(** The slices [Start] makes for the datagrams [ds] when the next free
    address is [a]: one array each, as long as what was read. *)
Fixpoint slices_of (a : nat) (ds : list bytes) : list Slice :=
  match ds with
  | [] => []
  | p :: rest =>
      mkSlice a (Nat.min (length p) readBufferSize) :: slices_of (S a) rest
  end.

(** The store of a listener that has read the datagrams [ds]: the read
    buffer at address 0, then one array per datagram, in order; the
    slices sent or about to be sent are those of [ds]. *)
Definition store_inv {R : Type} (ds : list bytes) (w : @World R) : Prop :=
  match pc w with
  | NotStarted | Bound _ | Exited =>
      heap w = [] /\ published w = [] /\ ds = []
  | _ =>
      (forall rb, scratch (pc w) = Some rb -> rb = mkSlice 0 readBufferSize)
      /\ published w ++ in_flight (pc w) = slices_of 1 ds
      /\ exists buf : bytes,
          length buf = readBufferSize
          /\ heap w = buf :: map (take readBufferSize) ds
  end.

End eventlistener.

(** ** [go.net/ipv6/gen.go]: canonical names for the IANA registries *)

Module ipv6gen.
Import Ascii.

(** Go strings are byte strings.  The functions of package [strings]
    that [escape] calls, on them. *)

(** [strings.Contains]. *)
Fixpoint Contains (s substr : string) : bool :=
  String.prefix substr s
  || match s with
     | EmptyString => false
     | String _ rest => Contains rest substr
     end.

Definition newline : ascii := Ascii.ascii_of_nat 10.
Definition space : ascii := Ascii.ascii_of_nat 32.

(** [strings.Split(s, sep)] for a separator of one byte: the pieces
    between the separators, at least one. *)
Fixpoint Split (s : string) (sep : ascii) : list string :=
  match s with
  | EmptyString => [EmptyString]
  | String c rest =>
      if Ascii.eqb c sep then EmptyString :: Split rest sep
      else
        match Split rest sep with
        | piece :: pieces => String c piece :: pieces
        | [] => [String c EmptyString]
        end
  end.

(** [strings.Join]. *)
Definition Join (ss : list string) (sep : string) : string :=
  String.concat sep ss.

(** [strings.NewReplacer(oldnew...).Replace]: the string is read from the
    left; at each position the first pair, in argument order, whose old
    string starts there is replaced and the scan goes on behind it; a
    byte where no pair matches is copied.  (No old string is empty in
    this file.)  [skip] counts the bytes of a match still to pass. *)
Definition lookup (oldnew : list (string * string)) (s : string)
  : option (string * string) :=
  List.find (fun p => String.prefix (fst p) s) oldnew.

Fixpoint Replace_from (oldnew : list (string * string)) (skip : nat)
    (s : string) : string :=
  match s with
  | EmptyString => EmptyString
  | String c rest =>
      match skip with
      | S k => Replace_from oldnew k rest
      | O =>
          match lookup oldnew s with
          | Some (old, new) =>
              (new ++ Replace_from oldnew (String.length old - 1) rest)%string
          | None => String c (Replace_from oldnew 0 rest)
          end
      end
  end.

Definition Replace (oldnew : list (string * string)) (s : string) : string :=
  Replace_from oldnew 0 s.

(** [s] with every byte [a] turned into [b]. *)
Fixpoint translate (a b : ascii) (s : string) : string :=
  match s with
  | EmptyString => EmptyString
  | String c rest =>
      String (if Ascii.eqb c a then b else c) (translate a b rest)
  end.

(** The decoded registries, as [xml.Decoder.Decode] fills them. *)
Record icmpv6ParamRecord := mkICMPRecord {
  Value : string;
  Name : string
}.

Record icmpv6ParamRegistry := mkICMPRegistry {
  RegistryTitle : string;
  RegistryRecords : list icmpv6ParamRecord
}.

Record icmpv6Parameters := mkICMPParameters {
  Title : string;
  Updated : string;
  Registries : list icmpv6ParamRegistry
}.

Record canonICMPv6ParamRecord := mkCanonICMP {
  canonOrigName : string;
  canonName : string;
  canonValue : Z
}.

Record protocolRecord := mkProtocolRecord {
  protoValue : string;
  protoName : string;
  protoDescr : string
}.

Record protocolNumbers := mkProtocolNumbers {
  pnTitle : string;
  pnUpdated : string;
  RegTitle : string;
  Note : string;
  Records : list protocolRecord
}.

Record canonProtocolRecord := mkCanonProtocol {
  cpOrigName : string;
  cpName : string;
  cpDescr : string;
  cpValue : Z
}.

(** The replacers of the two [escape] methods. *)
Definition icmpReplacer : list (string * string) :=
  [("Messages", EmptyString); ("Message", EmptyString);
   ("ICMP", EmptyString); ("+", "P"); ("-", EmptyString);
   ("/", EmptyString); (".", EmptyString); (" ", EmptyString)].

Definition protocolReplacer : list (string * string) :=
  [("-in-", "in"); ("-within-", "within"); ("-over-", "over");
   ("+", "P"); ("-", EmptyString); ("/", EmptyString);
   (".", EmptyString); (" ", EmptyString)].

(** The bytes both replacers remove. *)
Definition removed : list ascii :=
  ["+"%char; "-"%char; "/"%char; "."%char; " "%char].

Section Escape.

(** [strings.TrimSpace] (which works on Unicode code points) and
    [strconv.Atoi] (value and error) are taken as they are. *)
Variable TrimSpace : string -> string.
Variable Atoi : string -> Z * option error.

Definition zeroICMP : canonICMPv6ParamRecord :=
  mkCanonICMP EmptyString EmptyString 0.

(** The test at the top of the loop of [icmpv6Parameters.escape]. *)
Definition passed_over (name : string) : bool :=
  Contains name "Reserved"
  || Contains name "Unassigned"
  || Contains name "Deprecated"
  || Contains name "Experiment"
  || Contains name "experiment".

(** The body of the loop of [icmpv6Parameters.escape] for the record
    [pr] at index [i]. *)
Definition escapeICMP_at (i : nat) (pr : icmpv6ParamRecord)
    (prs : list canonICMPv6ParamRecord) : list canonICMPv6ParamRecord :=
  if passed_over (Name pr) then prs
  else
    let ss := Split (Name pr) newline in
    let name :=
      if (1 <? length ss)%nat then Join ss " " else hd EmptyString ss in
    let s := TrimSpace name in
    <[i := mkCanonICMP s (Replace icmpReplacer s) (fst (Atoi (Value pr)))]>
      prs.

(** [icmpv6Parameters.escape]: [None] is the index fault of
    [icp.Registries[id]]. *)
Definition escapeICMP (icp : icmpv6Parameters) (id : Z)
  : option (list canonICMPv6ParamRecord) :=
  if id <? 0 then None
  else
    match Registries icp !! Z.to_nat id with
    | None => None
    | Some registry =>
        let records := RegistryRecords registry in
        let prs := replicate (length records) zeroICMP in
        Some (fold_left (fun prs ipr => escapeICMP_at (fst ipr) (snd ipr) prs)
                        (combine (seq 0 (length records)) records) prs)
    end.

Definition zeroProtocol : canonProtocolRecord :=
  mkCanonProtocol EmptyString EmptyString EmptyString 0.

(** The body of the loop of [protocolNumbers.escape]. *)
Definition escapeProtocol_at (i : nat) (pr : protocolRecord)
    (prs : list canonProtocolRecord) : list canonProtocolRecord :=
  let s := TrimSpace (protoName pr) in
  let name :=
    if String.eqb (protoName pr) "ISIS over IPv4" then "ISIS"
    else if String.eqb (protoName pr) "manet" then "MANET"
    else Replace protocolReplacer s in
  let ss := map TrimSpace (Split (protoDescr pr) newline) in
  let descr :=
    if (1 <? length ss)%nat then Join ss " " else hd EmptyString ss in
  <[i := mkCanonProtocol (protoName pr) name descr
                         (fst (Atoi (protoValue pr)))]> prs.

(** [protocolNumbers.escape]. *)
Definition escapeProtocol (pn : protocolNumbers) : list canonProtocolRecord :=
  let prs := replicate (length (Records pn)) zeroProtocol in
  fold_left (fun prs ipr => escapeProtocol_at (fst ipr) (snd ipr) prs)
            (combine (seq 0 (length (Records pn))) (Records pn)) prs.

(** What the two loops leave in the slot of one record, said without
    the split into lines: every newline of the name has become a space;
    the description is its trimmed lines with one space between them. *)
Definition canonICMP (pr : icmpv6ParamRecord) : canonICMPv6ParamRecord :=
  if passed_over (Name pr) then zeroICMP
  else
    let s := TrimSpace (translate newline space (Name pr)) in
    mkCanonICMP s (Replace icmpReplacer s) (fst (Atoi (Value pr))).

Definition canonProtocol (pr : protocolRecord) : canonProtocolRecord :=
  mkCanonProtocol
    (protoName pr)
    (if String.eqb (protoName pr) "ISIS over IPv4" then "ISIS"
     else if String.eqb (protoName pr) "manet" then "MANET"
     else Replace protocolReplacer (TrimSpace (protoName pr)))
    (Join (map TrimSpace (Split (protoDescr pr) newline)) " ")
    (fst (Atoi (protoValue pr))).

End Escape.

End ipv6gen.

(** ** Implementations of the collaborators used in the examples *)

Module fakes.
Import syslog eventlistener.

(** A writer that answers [Connect] and [Write] from two scripts, and
    succeeds once a script is used up. *)
Record ScriptedWriter := mkScripted {
  connectScript : list (option error);
  writeScript : list (option error);
  closeCount : nat
}.

#[export] Instance scripted_writer : Writer ScriptedWriter := {
  Connect w :=
    match connectScript w with
    | [] => (w, None)
    | r :: rest => (mkScripted rest (writeScript w) (closeCount w), r)
    end;
  Write _ message _ _ _ w :=
    match writeScript w with
    | [] => (w, (Z.of_nat (length message), None))
    | r :: rest =>
        (mkScripted (connectScript w) rest (closeCount w),
         (match r with None => Z.of_nat (length message) | Some _ => 0 end, r))
    end;
  Close w := mkScripted (connectScript w) (writeScript w) (S (closeCount w))
}.

(** A requester that knows an address once [Start] has run for it. *)
#[export] Instance set_requester : heartbeatRequester (list Addr) := {
  Start senderAddr _ known := senderAddr :: known;
  KnownAndReset senderAddr known :=
    (existsb (String.eqb senderAddr) known, known)
}.

(** A backoff strategy and a duration printer for the examples; the
    properties are proved for any. *)
Definition backoff (n : Z) : Z := 1000000 * 2 ^ Z.min n 23.
Definition showDuration (d : Z) : string := "<duration>".

Definition logEnvelope (text : bytes) (t : LogMessage_MessageType)
    (ts : Z) : Envelope :=
  mkEnvelope "origin" Envelope_LogMessage
             (Some (mkLogMessage text (Some t) (Some ts)
                                 (Some "App") (Some "0")))
             None.

Definition metricEnvelope (name : string) : Envelope :=
  mkEnvelope "origin" Envelope_ValueMetric None None.

Definition sink0 (wr : ScriptedWriter) : SyslogSink :=
  NewSyslogSink "app-1" "syslog://drain" 2 wr "doppler".

(** Stand-ins for [strings.TrimSpace] and [strconv.Atoi] on ASCII text
    and unsigned decimals, for the examples; the properties are proved
    for any. *)
Definition isSpace (c : Ascii.ascii) : bool :=
  let n := Ascii.nat_of_ascii c in
  ((9 <=? n)%nat && (n <=? 13)%nat) || (n =? 32)%nat.

Fixpoint trimLeft (s : string) : string :=
  match s with
  | EmptyString => EmptyString
  | String c rest => if isSpace c then trimLeft rest else s
  end.

Fixpoint trimRight (s : string) : string :=
  match s with
  | EmptyString => EmptyString
  | String c rest =>
      match trimRight rest with
      | EmptyString => if isSpace c then EmptyString else String c EmptyString
      | r => String c r
      end
  end.

Definition trimSpace (s : string) : string := trimRight (trimLeft s).

Fixpoint digits (acc : Z) (s : string) : option Z :=
  match s with
  | EmptyString => Some acc
  | String c rest =>
      let n := Ascii.nat_of_ascii c in
      if (48 <=? n)%nat && (n <=? 57)%nat
      then digits (10 * acc + Z.of_nat (n - 48)) rest
      else None
  end.

Definition atoi (s : string) : Z * option error :=
  match s with
  | EmptyString => (0, Some "invalid syntax")
  | _ =>
      match digits 0 s with
      | Some n => (n, None)
      | None => (0, Some "invalid syntax")
      end
  end.

(** A cut of the two registries. *)
Definition icmpRegistry : ipv6gen.icmpv6Parameters :=
  ipv6gen.mkICMPParameters
    "Internet Control Message Protocol version 6 (ICMPv6) Parameters"
    "2013-07-03"
    [ipv6gen.mkICMPRegistry "Unused" [];
     ipv6gen.mkICMPRegistry "ICMPv6 type Numbers"
       [ipv6gen.mkICMPRecord "1" "Destination Unreachable";
        ipv6gen.mkICMPRecord "100" "Private experimentation";
        ipv6gen.mkICMPRecord "130" " Multicast Listener Query ";
        ipv6gen.mkICMPRecord "139" "ICMP Node Information Query"]].

Definition protocolRegistry : ipv6gen.protocolNumbers :=
  ipv6gen.mkProtocolNumbers
    "Protocol Numbers" "2013-02-17" "Assigned Internet Protocol Numbers"
    EmptyString
    [ipv6gen.mkProtocolRecord "43" "IPv6-Route" "Routing Header for IPv6";
     ipv6gen.mkProtocolRecord "124" "ISIS over IPv4" EmptyString].

End fakes.

(** * Properties *)

(** ** The truncating buffer *)

Section BufferProperties.
Import sinks.

Lemma push_bounded (v : Envelope) (b : TruncatingBuffer) :
  (length (pending (push v b)) <= capacity (push v b))%nat.
Proof.
  unfold push; simpl. rewrite length_drop. lia.
Qed.

Lemma recv_bounded (b : TruncatingBuffer) (e : Envelope) (b' : TruncatingBuffer) :
  recv b = Item e b' ->
  (length (pending b) <= capacity b)%nat ->
  (length (pending b') <= capacity b')%nat.
Proof.
  unfold recv. intros Hr Hb.
  destruct (droppedCount b).
  - destruct (pending b) as [|x rest] eqn:Hp.
    + destruct (inputClosed b); discriminate.
    + injection Hr as _ <-. simpl in *. lia.
  - injection Hr as _ <-. simpl. exact Hb.
Qed.

Lemma apply_op_bounded (b : TruncatingBuffer) (o : BufOp) :
  (length (pending b) <= capacity b)%nat ->
  (length (pending (apply_op b o)) <= capacity (apply_op b o))%nat.
Proof.
  intros Hb. destruct o as [v| |]; simpl.
  - apply push_bounded.
  - destruct (recv b) as [e b'| |] eqn:Hr; [eapply recv_bounded; eauto|exact Hb..].
  - exact Hb.
Qed.

Lemma apply_ops_bounded (ops : list BufOp) : forall b : TruncatingBuffer,
  (length (pending b) <= capacity b)%nat ->
  (length (pending (apply_ops ops b)) <= capacity (apply_ops ops b))%nat.
Proof.
  induction ops as [|o ops IH]; intros b Hb; simpl.
  - exact Hb.
  - apply IH, apply_op_bounded, Hb.
Qed.

Lemma apply_op_capacity (b : TruncatingBuffer) (o : BufOp) :
  capacity (apply_op b o) = capacity b.
Proof.
  destruct o as [v| |]; simpl; try reflexivity.
  unfold recv.
  destruct (droppedCount b); [|reflexivity].
  destruct (pending b); [destruct (inputClosed b)|]; reflexivity.
Qed.

Lemma apply_ops_capacity (ops : list BufOp) : forall b : TruncatingBuffer,
  capacity (apply_ops ops b) = capacity b.
Proof.
  induction ops as [|o ops IH]; intros b; simpl; [reflexivity|].
  rewrite IH. apply apply_op_capacity.
Qed.

(** Feeding a stalled buffer keeps the newest [capacity] items and counts
    the rest. *)
Lemma feed_snoc (items : list Envelope) (v : Envelope) (b : TruncatingBuffer) :
  feed (items ++ [v]) b = push v (feed items b).
Proof. unfold feed. rewrite fold_left_app. reflexivity. Qed.

Lemma feed_fresh (c : nat) (o : string) (items : list Envelope) :
  feed items (RunTruncatingBuffer c o)
  = mkBuffer c o (drop (length items - c) items) (length items - c) false.
Proof.
  induction items as [|v items IH] using rev_ind; [reflexivity|].
  rewrite feed_snoc, IH. unfold push; simpl.
  rewrite !length_app, length_drop; simpl.
  destruct (decide (length items <= c)%nat) as [Hle|Hgt].
  - replace (length items - c)%nat with 0%nat by lia.
    rewrite drop_0, Nat.sub_0_r. reflexivity.
  - rewrite <- drop_app_le by lia.
    rewrite drop_drop.
    replace (length items - c + (length items - (length items - c) + 1 - c))%nat
      with (length items + 1 - c)%nat by lia.
    reflexivity.
Qed.

(** Draining a buffer whose producer is stalled: the notification, if
    anything was dropped, then the pending items, oldest first. *)
Lemma drain_pending (c : nat) (o : string) (closed : bool) :
  forall (items : list Envelope) (fuel : nat),
  (length items < fuel)%nat ->
  drain fuel (mkBuffer c o items 0 closed) = items.
Proof.
  induction items as [|v items IH]; intros fuel Hf.
  - destruct fuel; [lia|]. simpl. unfold recv; simpl.
    destruct closed; reflexivity.
  - destruct fuel; [simpl in Hf; lia|]. simpl. unfold recv; simpl.
    rewrite IH by (simpl in Hf; lia). reflexivity.
Qed.

Lemma drain_fed (c : nat) (o : string) (items : list Envelope) (fuel : nat) :
  (length items + 1 < fuel)%nat ->
  drain fuel (feed items (RunTruncatingBuffer c o))
  = (if (c <? length items)%nat
     then [droppedNotification (RunTruncatingBuffer c o) (length items - c)]
     else [])
    ++ drop (length items - c) items.
Proof.
  intros Hf. rewrite feed_fresh.
  destruct (Nat.ltb_spec c (length items)) as [Hlt|Hge].
  - destruct fuel; [lia|].
    destruct (length items - c)%nat as [|d] eqn:Hd; [lia|].
    simpl. unfold recv; simpl.
    rewrite drain_pending; [reflexivity|].
    rewrite length_drop. lia.
  - replace (length items - c)%nat with 0%nat by lia.
    rewrite drop_0. simpl. apply drain_pending. lia.
Qed.

(** C5: the overflow buffer never holds more than its capacity of pending
    items, whatever the producer and the consumer do; fed [items] with a
    stalled consumer it keeps exactly the newest [capacity] of them (the
    oldest are evicted first) and hands the consumer one notification of
    a non-log kind carrying the number dropped; with capacity 2 and 5
    items the consumer gets the notification of 3 dropped and the last
    two items. *)
Theorem overflow_buffer_bounded_fifo_eviction :
  (forall (c : nat) (o : string) (ops : list BufOp),
      let b := apply_ops ops (RunTruncatingBuffer c o) in
      capacity b = c /\ (length (pending b) <= c)%nat)
  /\ (forall (c : nat) (o : string) (items : list Envelope),
      let b := feed items (RunTruncatingBuffer c o) in
      pending b = drop (length items - c) items
      /\ droppedCount b = (length items - c)%nat
      /\ drain (length items + 2) b
         = (if (c <? length items)%nat
            then [droppedNotification b (length items - c)] else [])
           ++ drop (length items - c) items)
  /\ (forall (b : TruncatingBuffer) (n : nat),
      is_log (droppedNotification b n) = false
      /\ CounterEvent_ (droppedNotification b n)
         = Some (mkCounterEvent "TruncatingBuffer.DroppedMessages" (Z.of_nat n)))
  /\ (forall (o : string) (e1 e2 e3 e4 e5 : Envelope),
      let b := feed [e1; e2; e3; e4; e5] (RunTruncatingBuffer 2 o) in
      drain 7 b = [droppedNotification b 3; e4; e5]).
Proof.
  split; [|split; [|split]].
  - intros c o ops b. subst b. split.
    + apply apply_ops_capacity.
    + rewrite <- (apply_ops_capacity ops (RunTruncatingBuffer c o)) at 2.
      apply apply_ops_bounded. simpl. lia.
  - intros c o items b. subst b.
    rewrite drain_fed by lia. rewrite feed_fresh. simpl.
    split; [reflexivity|split; reflexivity].
  - intros b n. split; reflexivity.
  - intros o e1 e2 e3 e4 e5 b. reflexivity.
Qed.

End BufferProperties.

(** ** The syslog sink *)

Section SinkProperties.
Import sinks syslog.
Context {W : Type} `{!Writer W}.
Variable backoffStrategy : Z -> Z.
Variable formatDuration : Z -> string.

#[local] Abbreviation World := (@World W).
#[local] Abbreviation SyslogSink := (@SyslogSink W).
#[local] Abbreviation step := (@step W _ backoffStrategy formatDuration).
#[local] Abbreviation run := (@run W _ backoffStrategy formatDuration).
#[local] Abbreviation loop_head := (@loop_head W _ backoffStrategy formatDuration).
#[local] Abbreviation Run_enter := (@Run_enter W backoffStrategy).

(** Case analysis of a move that is known to be enabled. *)
Ltac break_match H :=
  repeat match type of H with
         | context [match ?x with _ => _ end] =>
             lazymatch x with
             | context [match _ with _ => _ end] => fail
             | _ => destruct x eqn:?
             end
         end.
Ltac step_inv H :=
  unfold syslog.step, syslog.select_item, syslog.loop_head,
         syslog.sendLogMessage, syslog.Disconnect, close_chan in H;
  break_match H; try discriminate H;
  injection H as <-.

(** An invariant of every move is an invariant of every schedule. *)
Lemma run_invariant (P : World -> Prop) :
  (forall l w w', P w -> step l w = Some w' -> P w') ->
  forall ls w w', P w -> run ls w = Some w' -> P w'.
Proof.
  intros Hstep. induction ls as [|l ls IH]; intros w w' HP Hrun; simpl in Hrun.
  - injection Hrun as <-. exact HP.
  - destruct (step l w) as [w1|] eqn:Hs; [|discriminate].
    eapply IH; [eapply Hstep; eauto|exact Hrun].
Qed.


(** *** [Disconnect] *)

Lemma Disconnect_ok (s : SyslogSink) :
  once_inv s ->
  exists s',
    Disconnect s
    = Ok (s', if disconnectOnce s then [] else [EvCloseDisconnectChannel])
    /\ once_inv s'
    /\ disconnectOnce s' = true
    /\ (disconnectOnce s = true -> s' = s).
Proof.
  unfold once_inv, Disconnect, close_chan. intros Hinv.
  destruct (disconnectOnce s) eqn:Ho.
  - exists s. repeat split; congruence.
  - rewrite Hinv. eexists. split; [reflexivity|]. simpl.
    split; [reflexivity|]. split; [reflexivity|discriminate].
Qed.

Lemma Disconnect_n_ok (n : nat) : forall s : SyslogSink,
  once_inv s ->
  exists s',
    Disconnect_n n s
    = Ok (s', if disconnectOnce s || (n =? 0)%nat then []
              else [EvCloseDisconnectChannel])
    /\ once_inv s'
    /\ disconnectOnce s' = disconnectOnce s || negb (n =? 0)%nat.
Proof.
  induction n as [|n IH]; intros s Hinv; simpl.
  - exists s. rewrite !orb_true_r, orb_false_r. auto.
  - destruct (Disconnect_ok s Hinv) as (s1 & -> & Hinv1 & Ho1 & _).
    destruct (IH s1 Hinv1) as (s2 & -> & Hinv2 & Ho2).
    exists s2. rewrite Ho1 in *. simpl in *. rewrite orb_false_r, orb_true_r.
    split; [|auto].
    destruct (disconnectOnce s); simpl; reflexivity.
Qed.

Lemma step_once (l : Label) (w w' : World) :
  once_inv (sink w) ->
  step l w = Some w' ->
  once_inv (sink w')
  /\ crashed w' <> Some CloseOfClosedChannel
  /\ disconnectOnce (sink w')
     = disconnectOnce (sink w) || is_CallDisconnect l
  /\ List.filter is_close_disconnect (trace w')
     = List.filter is_close_disconnect (trace w)
       ++ (if negb (disconnectOnce (sink w)) && is_CallDisconnect l
           then [EvCloseDisconnectChannel] else []).
Proof.
  unfold once_inv. intros Hinv Hs.
  step_inv Hs; simpl;
    rewrite ?List.filter_app, ?orb_false_r, ?andb_false_r, ?app_nil_r; simpl;
    rewrite ?app_nil_r;
    repeat match goal with
           | H : (_, _) = (_, _) |- _ => injection H as <- <-
           | H : Ok _ = Ok _ |- _ => injection H as <-
           | H : Ok _ = Ok _ |- _ => injection H as <- <-
           | H : Panic _ = Panic _ |- _ => injection H as <-
           end;
    simpl; rewrite ?app_nil_r;
    try solve [repeat split; first [congruence | discriminate | reflexivity]].
Qed.

Lemma run_once (ls : list Label) : forall w w' : World,
  once_inv (sink w) ->
  crashed w <> Some CloseOfClosedChannel ->
  run ls w = Some w' ->
  once_inv (sink w')
  /\ crashed w' <> Some CloseOfClosedChannel
  /\ disconnectOnce (sink w')
     = disconnectOnce (sink w) || existsb is_CallDisconnect ls
  /\ List.filter is_close_disconnect (trace w')
     = List.filter is_close_disconnect (trace w)
       ++ (if negb (disconnectOnce (sink w)) && existsb is_CallDisconnect ls
           then [EvCloseDisconnectChannel] else []).
Proof.
  induction ls as [|l ls IH]; intros w w' Hinv Hc Hrun; simpl in Hrun.
  - injection Hrun as <-. simpl.
    rewrite orb_false_r, andb_false_r, app_nil_r. auto.
  - destruct (step l w) as [w1|] eqn:Hs; [|discriminate].
    destruct (step_once l w w1 Hinv Hs) as (Hinv1 & Hc1 & Ho1 & Ht1).
    destruct (IH w1 w' Hinv1 Hc1 Hrun) as (Hinv' & Hc' & Ho' & Ht').
    split; [exact Hinv'|]. split; [exact Hc'|].
    rewrite Ho', Ht', Ho1, Ht1. simpl.
    split; [symmetry; apply orb_assoc|].
    rewrite <- app_assoc. f_equal.
    destruct (disconnectOnce (sink w)), (is_CallDisconnect l),
      (existsb is_CallDisconnect ls); reflexivity.
Qed.

(** Every world reached from a new sink, after any calls of
    [Disconnect] before [Run], satisfies the invariant. *)
Lemma reachable_once (ls : list Label) (s : SyslogSink) (w : World) :
  once_inv s -> run ls (Run_enter s) = Some w -> once_inv (sink w).
Proof.
  intros Hinv Hrun.
  eapply (run_once ls (Run_enter s) w); [exact Hinv|discriminate|exact Hrun].
Qed.

(** C6: however often [Disconnect] is called ([n] times before [Run],
    and any number of times interleaved with the moves of [Run] and of the
    filter goroutine), no call faults on closing a closed channel, the
    disconnect channel is closed exactly once when there is at least one
    call, and a call after the first leaves everything as it is. *)
Theorem Disconnect_signals_exactly_once
    (theAppId theDrainUrl : string) (size : nat) (wr : W) (origin : string)
    (n : nat) :
  exists (s : SyslogSink) (pre : list Effect),
    Disconnect_n n (NewSyslogSink theAppId theDrainUrl size wr origin)
    = Ok (s, pre)
    /\ forall (ls : list Label) (w : World),
        run ls (Run_enter s) = Some w ->
        let called := negb (n =? 0)%nat || existsb is_CallDisconnect ls in
        crashed w <> Some CloseOfClosedChannel
        /\ disconnectChannel (sink w) = called
        /\ length (List.filter is_close_disconnect (pre ++ trace w))
           = (if called then 1 else 0)%nat
        /\ (disconnectOnce (sink w) = true -> crashed w = None ->
            step CallDisconnect w = Some w).
Proof.
  destruct (Disconnect_n_ok n (NewSyslogSink theAppId theDrainUrl size wr origin))
    as (s & Hn & Hinv & Ho); [reflexivity|].
  exists s. eexists. split; [exact Hn|].
  intros ls w Hrun called. subst called.
  destruct (run_once ls (Run_enter s) w Hinv ltac:(discriminate) Hrun)
    as (Hinv' & Hc' & Ho' & Ht').
  simpl in Ho, Ho', Ht'. rewrite Ho in Ho', Ht'.
  split; [exact Hc'|]. split; [rewrite Hinv'; exact Ho'|]. split.
  - rewrite List.filter_app, Ht'. simpl.
    destruct (n =? 0)%nat; simpl;
      destruct (existsb is_CallDisconnect ls); reflexivity.
  - intros Honce Hcr. unfold syslog.step. rewrite Hcr.
    destruct (Disconnect_ok (sink w) Hinv') as (s' & -> & _ & _ & Hsame).
    rewrite (Hsame Honce), Honce.
    unfold emit, set_sink; simpl. rewrite app_nil_r.
    destruct w; reflexivity.
Qed.

(** *** The backoff wait and the disconnect signal *)

(** C8: in a sink that waits out a backoff (blocked in the backoff
    [select], no tick in the timer channel), a call of [Disconnect] leaves
    [Run] one enabled move only, the disconnect branch of the [select]:
    the timer branch and every other move of [Run] are disabled, and that
    move returns from [Run] (closing the writer and stopping the timer)
    without another connect attempt and without touching the counter. *)
Theorem backoff_wait_ends_on_disconnect
    (s : SyslogSink) (ls : list Label) (w : World) :
  once_inv s ->
  run ls (Run_enter s) = Some w ->
  crashed w = None ->
  pc w = InBackoffSelect ->
  C (timer w) = false ->
  exists w1 : World,
    step CallDisconnect w = Some w1
    /\ disconnectChannel (sink w1) = true
    /\ (forall (l : Label) (w2 : World),
          In l [MainHead; SelectDisconnect; SelectTimer; SelectItem] ->
          step l w1 = Some w2 -> l = SelectDisconnect)
    /\ exists w2 : World,
        step SelectDisconnect w1 = Some w2
        /\ pc w2 = Returned
        /\ numberOfTries w2 = numberOfTries w
        /\ trace w2
           = trace w1 ++ [EvClose; EvTimerStop; EvLog Error_ LogStopped].
Proof.
  intros Hs Hrun Hcr Hpc HC.
  pose proof (reachable_once ls s w Hs Hrun) as Hinv.
  destruct (Disconnect_ok (sink w) Hinv) as (s' & Hd & _ & Ho' & _).
  pose proof Hd as Hd'.
  unfold Disconnect, close_chan in Hd'.
  assert (Hch : disconnectChannel s' = true).
  { destruct (disconnectOnce (sink w)) eqn:Ho.
    - injection Hd' as <-. congruence.
    - destruct (disconnectChannel (sink w)); [discriminate|].
      injection Hd' as <-. reflexivity. }
  eexists. split.
  { unfold syslog.step. rewrite Hcr, Hd. reflexivity. }
  split; [exact Hch|]. split.
  - intros l w2 Hin Hstep.
    unfold syslog.step in Hstep; simpl in Hstep.
    rewrite Hcr, Hpc, HC in Hstep.
    destruct Hin as [<-|[<-|[<-|[<-|[]]]]];
      first [reflexivity | discriminate Hstep].
  - eexists. split.
    + unfold syslog.step; simpl. rewrite Hcr, Hpc, Hch. reflexivity.
    + simpl. auto.
Qed.

(** *** What is written *)

Lemma messagePriorityValue_cases (m : option LogMessage) :
  (GetMessageType m = LogMessage_OUT -> messagePriorityValue m = 14)
  /\ (GetMessageType m = LogMessage_ERR -> messagePriorityValue m = 11)
  /\ (GetMessageType m <> LogMessage_OUT ->
      GetMessageType m <> LogMessage_ERR -> messagePriorityValue m = -1).
Proof.
  unfold messagePriorityValue, LogMessage_OUT, LogMessage_ERR.
  repeat split; intros.
  - rewrite H. reflexivity.
  - rewrite H. reflexivity.
  - destruct (Z.eqb_spec (GetMessageType m) 1); [contradiction|].
    destruct (Z.eqb_spec (GetMessageType m) 2); [contradiction|].
    reflexivity.
Qed.

(** C9: for a log message that has its timestamp, [sendLogMessage] calls
    [Write] once, with the priority of the message type (14 for OUT, 11
    for ERR, -1 for anything else) and with the message bytes, the source
    type, the source instance and the timestamp of the message; and that
    is the call the run loop makes for a log-kind envelope taken from the
    buffer. *)
Theorem Write_gets_priority_and_fields
    (l : LogMessage) (ts : Z) :
  Timestamp l = Some ts ->
  let m := Some l in
  let priority := messagePriorityValue m in
  (forall wr : W,
      exists (wr' : W) (n : Z) (err : option error),
        Write priority (Message l) (GetSourceType m) (GetSourceInstance m)
              ts wr = (wr', (n, err))
        /\ sendLogMessage wr m
           = Ok (wr',
                 EvWrite priority (Message l) (GetSourceType m)
                         (GetSourceInstance m) ts err,
                 err))
  /\ (forall (w : World) (e : Envelope) (b' : TruncatingBuffer),
        crashed w = None ->
        pc w = InActivitySelect ->
        recv (buffer w) = Item e b' ->
        GetEventType e = Envelope_LogMessage ->
        GetLogMessage e = m ->
        exists (w' : World) (err : option error) (rest : list Effect),
          step SelectItem w = Some w'
          /\ trace w'
             = trace w
               ++ EvWrite priority (Message l) (GetSourceType m)
                          (GetSourceInstance m) ts err :: rest
          /\ List.filter is_write rest = [])
  /\ (GetMessageType m = LogMessage_OUT -> priority = 14)
  /\ (GetMessageType m = LogMessage_ERR -> priority = 11)
  /\ (GetMessageType m <> LogMessage_OUT ->
      GetMessageType m <> LogMessage_ERR -> priority = -1).
Proof.
  intros Hts m priority.
  assert (Hsend : forall wr : W,
      exists (wr' : W) (n : Z) (err : option error),
        Write priority (Message l) (GetSourceType m) (GetSourceInstance m)
              ts wr = (wr', (n, err))
        /\ sendLogMessage wr m
           = Ok (wr',
                 EvWrite priority (Message l) (GetSourceType m)
                         (GetSourceInstance m) ts err,
                 err)).
  { intros wr. unfold sendLogMessage. subst m priority. simpl. rewrite Hts.
    destruct (Write _ _ _ _ _ wr) as [wr' [n err]].
    exists wr', n, err. split; reflexivity. }
  split; [exact Hsend|]. split.
  - intros w e b' Hcr Hpc Hrecv Hty Hlm.
    destruct (Hsend (syslogWriter (sink w))) as (wr' & n & err & _ & Hcall).
    unfold syslog.step, select_item. rewrite Hcr, Hpc, Hrecv, Hty, Hlm.
    simpl EventType_eqb. cbn iota.
    change (syslogWriter (sink (set_buffer b' w)))
      with (syslogWriter (sink w)).
    rewrite Hcall.
    destruct err as [e'|]; eexists; eexists; eexists;
      (split; [reflexivity|]); simpl; split; reflexivity.
  - apply messagePriorityValue_cases.
Qed.

(** *** The attempt counter *)

Lemma wrap_int_succ (a : Z) : wrap_int (wrap_int a + 1) = wrap_int (a + 1).
Proof.
  unfold wrap_int.
  replace ((a + 2 ^ 63) mod 2 ^ 64 - 2 ^ 63 + 1 + 2 ^ 63)
    with ((a + 2 ^ 63) mod 2 ^ 64 + 1) by lia.
  rewrite Zplus_mod_idemp_l. f_equal. f_equal. lia.
Qed.

Lemma wrap_int_small (a : Z) : int_min <= a <= int_max -> wrap_int a = a.
Proof.
  unfold wrap_int, int_min, int_max. intros Ha.
  rewrite Z.mod_small; lia.
Qed.

Lemma step_trace_grows (l : Label) (w w' : World) :
  step l w = Some w' -> exists evs, trace w' = trace w ++ evs.
Proof.
  intros Hs. step_inv Hs; simpl;
    try (eexists; reflexivity);
    try (exists []; rewrite app_nil_r; reflexivity);
    try (eexists; rewrite <- app_assoc; reflexivity).
Qed.

Lemma run_trace_grows (ls : list Label) : forall w w' : World,
  run ls w = Some w' -> exists evs, trace w' = trace w ++ evs.
Proof.
  induction ls as [|l ls IH]; intros w w' Hrun; simpl in Hrun.
  - injection Hrun as <-. exists []. rewrite app_nil_r. reflexivity.
  - destruct (step l w) as [w1|] eqn:Hs; [|discriminate].
    destruct (step_trace_grows l w w1 Hs) as [evs1 H1].
    destruct (IH w1 w' Hrun) as [evs2 H2].
    exists (evs1 ++ evs2). rewrite H2, H1, app_assoc. reflexivity.
Qed.

Lemma connect_results_app (tr1 tr2 : list Effect) :
  connect_results (tr1 ++ tr2) = connect_results tr1 ++ connect_results tr2.
Proof. apply flat_map_app. Qed.

Ltac no_write H :=
  rewrite List.filter_app in H; apply app_eq_nil in H;
  destruct H as [_ H]; discriminate H.

Ltac inject_pairs :=
  repeat match goal with
         | H : (_, _) = (_, _) |- _ => injection H as <- <-
         | H : Ok _ = Ok _ |- _ => injection H as <- <-
         | H : Ok _ = Ok _ |- _ => injection H as <-
         end.

Ltac tries_cases :=
  first
    [ solve [ left; split; [assumption|]; split; [assumption|];
              left; split; [reflexivity|];
              first [ assumption
                    | match goal with
                      | Ht : numberOfTries _ = _, Hk : length _ = _ |- _ =>
                          rewrite Ht, wrap_int_succ, Hk; f_equal; lia
                      end ] ]
    | solve [ left; split; [assumption|]; split; [assumption|];
              right; split; [auto|]; eexists; split; eassumption ]
    | solve [ left;
              split; [apply Forall_app; split;
                      [assumption|repeat constructor; discriminate]|];
              split; [assumption|];
              right; split; [auto|]; eexists;
              split; [rewrite length_app; simpl; rewrite Nat.add_1_r;
                      reflexivity
                     |assumption] ]
    | solve [ right; eexists; split; [eassumption|];
              split; [assumption|]; split; [first [assumption|reflexivity]|];
              split; [first [assumption|discriminate]|assumption] ]
    | solve [ right; eexists; split; [reflexivity|];
              split; [assumption|]; split; [reflexivity|];
              split; [discriminate|assumption] ] ].

Lemma step_tries_inv (l : Label) (w w' : World) :
  tries_inv w -> step l w = Some w' -> tries_inv w'.
Proof.
  intros Hinv Hs.
  destruct (step_trace_grows l w w' Hs) as [evs Hevs].
  unfold tries_inv. intros Hnw'.
  assert (Hnw : List.filter is_write (trace w) = []).
  { rewrite Hevs, List.filter_app in Hnw'.
    apply app_eq_nil in Hnw'. tauto. }
  specialize (Hinv Hnw). clear Hevs evs Hnw. cbv zeta in Hinv.
  step_inv Hs; simpl in *; inject_pairs;
    try solve [no_write Hnw'];
    rewrite ?connect_results_app; cbn [connect_results flat_map];
    rewrite ?app_nil_r, ?app_nil_l;
    try exact Hinv;
    destruct Hinv as [(HF & Hc & [(Hp & Ht) | (Hp & k & Hk & Ht)])
                     | (cr' & Hcr & HF & Hc & Hp & Ht)];
    try congruence;
    try (destruct Hp as [Hp|Hp]; discriminate Hp);
    try (rewrite Hp in *; discriminate);
    try tries_cases.
Qed.

Lemma tries_inv_enter (s : SyslogSink) : tries_inv (Run_enter s).
Proof.
  intros _. left. simpl. repeat split; auto.
Qed.




(** *** The error callback *)






(** *** The filter stage *)

Lemma EventType_eqb_eq (a b : Envelope_EventType) :
  EventType_eqb a b = true <-> a = b.
Proof.
  split.
  - destruct a, b; simpl; intros H; first [reflexivity | discriminate H].
  - intros <-. destruct a; reflexivity.
Qed.

Lemma EventType_eqb_neq (a b : Envelope_EventType) :
  EventType_eqb a b = false <-> a <> b.
Proof.
  split.
  - intros H Heq. apply EventType_eqb_eq in Heq. congruence.
  - intros H. destruct (EventType_eqb a b) eqn:He; [|reflexivity].
    apply EventType_eqb_eq in He. contradiction.
Qed.

Lemma recv_item (b b' : TruncatingBuffer) (e : Envelope) :
  recv b = Item e b' ->
  (e = droppedNotification b (droppedCount b) /\ pending b' = pending b)
  \/ pending b = e :: pending b'.
Proof.
  unfold recv. intros H.
  destruct (droppedCount b).
  - destruct (pending b) as [|x rest].
    + destruct (inputClosed b); discriminate.
    + injection H as <- <-. right. reflexivity.
  - injection H as <- <-. left. split; reflexivity.
Qed.

Lemma written_from_mono (seen more : list Envelope) (e : Effect) :
  written_from seen e -> written_from (seen ++ more) e.
Proof.
  destruct e; simpl; auto.
  intros (v & l & Hin & H). exists v, l. split; [|exact H].
  apply in_or_app. left. exact Hin.
Qed.

Lemma filter_inv_mono (seen more : list Envelope) (w : World) :
  filter_inv seen w -> filter_inv (seen ++ more) w.
Proof.
  intros [Hp Ht]. split.
  - eapply Forall_impl; [exact Hp|]. cbv beta.
    intros e [Hk Hin]. split; [exact Hk|]. apply in_or_app. left. exact Hin.
  - eapply Forall_impl; [exact Ht|]. intros e. apply written_from_mono.
Qed.

Lemma recv_pending (P : Envelope -> Prop) (b b' : TruncatingBuffer)
    (e : Envelope) :
  recv b = Item e b' -> Forall P (pending b) -> Forall P (pending b').
Proof.
  intros Hr HP. destruct (recv_item b b' e Hr) as [[_ ->]|Heq]; [exact HP|].
  rewrite Heq in HP. inversion HP; assumption.
Qed.

Lemma recv_log_item (P : Envelope -> Prop) (b b' : TruncatingBuffer)
    (e : Envelope) :
  recv b = Item e b' ->
  GetEventType e = Envelope_LogMessage ->
  Forall P (pending b) -> P e.
Proof.
  intros Hr Hk HP. destruct (recv_item b b' e Hr) as [[-> _]|Heq].
  - discriminate Hk.
  - rewrite Heq in HP. inversion HP; assumption.
Qed.

Lemma step_filter_inv (l : Label) (seen : list Envelope) (w w' : World) :
  filter_inv seen w -> step l w = Some w' ->
  filter_inv (seen ++ inputs [l]) w'.
Proof.
  intros Hinv Hs.
  apply (filter_inv_mono seen (inputs [l])) in Hinv.
  destruct Hinv as [Hp Ht].
  step_inv Hs; simpl in *; inject_pairs; rewrite ?app_nil_r in *.
  all: try solve [split; [exact Hp|];
                  repeat (apply Forall_app; split);
                  first [exact Ht | repeat constructor]].
  all: try match goal with
           | Hr : recv _ = Item _ _ |- _ =>
               pose proof (recv_pending _ _ _ _ Hr Hp) as Hp';
               try match goal with
                   | Hk : EventType_eqb _ _ = true |- _ =>
                       apply EventType_eqb_eq in Hk;
                       pose proof (recv_log_item _ _ _ _ Hr Hk Hp) as [_ Hseen]
                   end
           end.
  - split; [exact Hp'|]. simpl. apply Forall_app. split; [exact Ht|].
    constructor; [|repeat constructor].
    simpl. eexists; eexists. repeat split; eauto.
  - split; [exact Hp'|]. simpl. apply Forall_app. split; [exact Ht|].
    constructor; [|repeat constructor].
    simpl. eexists; eexists. repeat split; eauto.
  - split; [exact Hp'|]. simpl. apply Forall_app. split; [exact Ht|].
    repeat constructor.
  - split; [exact Hp'|]. simpl. apply Forall_app. split; [exact Ht|].
    repeat constructor.
  - split; [exact Hp'|exact Ht].
  - split; [|exact Ht]. simpl.
    apply Forall_drop, Forall_app. split; [exact Hp|].
    constructor; [|constructor].
    split; [apply EventType_eqb_eq; assumption|].
    apply in_or_app. right. left. reflexivity.
Qed.

Lemma run_filter_inv (ls : list Label) :
  forall (seen : list Envelope) (w w' : World),
  filter_inv seen w -> run ls w = Some w' ->
  filter_inv (seen ++ inputs ls) w'.
Proof.
  induction ls as [|l ls IH]; intros seen w w' Hinv Hrun; simpl in Hrun.
  - injection Hrun as <-. simpl. rewrite app_nil_r. exact Hinv.
  - destruct (step l w) as [w1|] eqn:Hs; [|discriminate].
    change (l :: ls) with ([l] ++ ls).
    unfold inputs. rewrite flat_map_app, app_assoc.
    eapply IH; [|exact Hrun].
    eapply step_filter_inv; eauto.
Qed.

(** C3: [Write] is called for log-kind envelopes only.  In every run the
    buffer holds log-kind envelopes from the input only (anything else is
    dropped by the filter goroutine before the buffer); every [Write] in
    the trace is the write of a log-kind envelope of the input; so an
    input without log-kind envelopes leads to no [Write].  An item of
    another kind that is received from the buffer, such as the dropped
    message notification, is skipped without touching the writer. *)
Theorem Write_only_for_log_envelopes (s : SyslogSink) :
  (forall (ls : list Label) (w : World),
      run ls (Run_enter s) = Some w ->
      Forall (fun e => GetEventType e = Envelope_LogMessage
                       /\ In e (inputs ls))
             (pending (buffer w))
      /\ Forall (written_from (inputs ls)) (trace w)
      /\ (Forall (fun v => GetEventType v <> Envelope_LogMessage) (inputs ls) ->
          List.filter is_write (trace w) = []))
  /\ (forall (w : World) (v : Envelope),
        crashed w = None ->
        filterRunning w = true ->
        GetEventType v <> Envelope_LogMessage ->
        step (Input v) w = Some w)
  /\ (forall (w : World) (e : Envelope) (b' : TruncatingBuffer),
        crashed w = None ->
        pc w = InActivitySelect ->
        recv (buffer w) = Item e b' ->
        GetEventType e <> Envelope_LogMessage ->
        exists w' : World,
          step SelectItem w = Some w'
          /\ trace w' = trace w
          /\ syslogWriter (sink w') = syslogWriter (sink w))
  /\ (forall (b : TruncatingBuffer) (n : nat),
        GetEventType (droppedNotification b n) <> Envelope_LogMessage).
Proof.
  split; [|split; [|split]].
  - intros ls w Hrun.
    assert (Hinit : filter_inv [] (Run_enter s)).
    { split; simpl; repeat constructor. }
    destruct (run_filter_inv ls [] _ _ Hinit Hrun) as [Hp Ht].
    simpl in Hp, Ht.
    split; [exact Hp|]. split; [exact Ht|].
    intros Hnone.
    induction (trace w) as [|ev tr IH]; [reflexivity|].
    inversion Ht as [|? ? Hev Htr]; subst.
    destruct ev; simpl; try (apply IH; exact Htr).
    exfalso. simpl in Hev.
    destruct Hev as (v & l & Hin & Hk & _).
    rewrite Forall_forall in Hnone.
    apply (Hnone v); [apply list_elem_of_In; exact Hin|exact Hk].
  - intros w v Hcr Hf Hk. unfold syslog.step. rewrite Hcr, Hf.
    apply EventType_eqb_neq in Hk. rewrite Hk. reflexivity.
  - intros w e b' Hcr Hpc Hr Hk.
    unfold syslog.step, select_item. rewrite Hcr, Hpc, Hr.
    apply EventType_eqb_neq in Hk. rewrite Hk.
    eexists. split; [reflexivity|]. split; reflexivity.
  - intros b n. discriminate.
Qed.

(** *** Further properties of the run loop *)

Lemma link_run_app (tr1 tr2 : list Effect) : forall st : Link,
  link_run st (tr1 ++ tr2)
  = match link_run st tr1 with
    | Some st' => link_run st' tr2
    | None => None
    end.
Proof.
  induction tr1 as [|e tr1 IH]; intros st; simpl; [reflexivity|].
  destruct (link_step st e); [apply IH|reflexivity].
Qed.

(** Where [Run] waits, its [connected] flag is settled. *)
Lemma step_pc_connected (l : Label) (w w' : World) :
  (pc w = InActivitySelect -> connected w = true)
  /\ (pc w = InBackoffSelect -> connected w = false) ->
  step l w = Some w' ->
  (pc w' = InActivitySelect -> connected w' = true)
  /\ (pc w' = InBackoffSelect -> connected w' = false).
Proof.
  intros [Ha Hb] Hs.
  step_inv Hs; simpl in *; inject_pairs; simpl;
    split; intros Hpc; try discriminate Hpc; auto.
Qed.

Lemma step_link (l : Label) (w w' : World) :
  (pc w = InActivitySelect -> connected w = true)
  /\ (pc w = InBackoffSelect -> connected w = false) ->
  link_run Disconnected (trace w) = Some (link_of w) ->
  step l w = Some w' ->
  link_run Disconnected (trace w') = Some (link_of w').
Proof.
  intros [Ha Hb] Hlink Hs. unfold link_of in *.
  step_inv Hs; simpl in *; inject_pairs; simpl;
    rewrite ?link_run_app, ?Hlink; simpl;
    try match goal with H : pc w = _ |- _ => rewrite H in *; simpl in * end;
    try match goal with H : connected w = _ |- _ => rewrite H in *; simpl in * end;
    try rewrite (Ha eq_refl) in *; try rewrite (Hb eq_refl) in *;
    simpl; try reflexivity; try assumption.
  destruct (pc w); simpl in *; try discriminate;
    destruct (connected w); reflexivity.
Qed.

(** X1: [Run] drives its writer in order.  In every run the trace is a
    legal history of the writer: [Connect] is called only while not
    connected, [Write] only while connected (after a successful [Connect]
    and no failed [Write] since), [Close] exactly once, when [Run]
    returns, and no call follows it; and the [connected] flag of [Run]
    is the state that history leaves the writer in. *)
Theorem writer_calls_in_order (s : SyslogSink) (ls : list Label) (w : World) :
  run ls (Run_enter s) = Some w ->
  link_run Disconnected (trace w) = Some (link_of w)
  /\ (pc w = InActivitySelect -> connected w = true)
  /\ (pc w = InBackoffSelect -> connected w = false)
  /\ length (List.filter (fun e => match e with EvClose => true | _ => false end)
                         (trace w))
     = (match pc w with Returned => 1 | _ => 0 end)%nat.
Proof.
  intros Hrun.
  pose (P := fun w : World =>
    ((pc w = InActivitySelect -> connected w = true)
     /\ (pc w = InBackoffSelect -> connected w = false))
    /\ link_run Disconnected (trace w) = Some (link_of w)
    /\ length (List.filter
                 (fun e => match e with EvClose => true | _ => false end)
                 (trace w))
       = (match pc w with Returned => 1 | _ => 0 end)%nat).
  assert (HP : P w).
  { apply (run_invariant P) with (ls := ls) (w := Run_enter s);
      [|subst P; simpl|exact Hrun].
    - subst P. cbv beta. clear.
      intros l w w' (Hpc & Hlink & Hclose) Hs.
      split; [eapply step_pc_connected; eauto|].
      split; [eapply step_link; eauto|].
      step_inv Hs; simpl in *; inject_pairs; simpl;
        rewrite ?List.filter_app, ?length_app, ?Hclose; simpl;
        try match goal with H : pc w = _ |- _ => rewrite H in *; simpl in * end;
        try lia.
      destruct (pc w); simpl in *; try discriminate; lia.
    - repeat split; intros; discriminate. }
  destruct HP as ((Ha & Hb) & Hlink & Hclose). auto.
Qed.


Lemma existsb_app_true {A : Type} (f : A -> bool) (l1 l2 : list A) :
  existsb f l1 = true -> existsb f (l1 ++ l2) = true.
Proof. intros H. rewrite existsb_app, H. reflexivity. Qed.

(** Either [Run] is still at the top of its first pass, or it has called
    [Connect]. *)
Lemma dialed_or_at_start (s : SyslogSink) (ls : list Label) (w : World) :
  run ls (Run_enter s) = Some w ->
  (pc w = AtLoopHead /\ connected w = false
   /\ List.filter is_connect (trace w) = [])
  \/ existsb is_connect (trace w) = true.
Proof.
  apply (run_invariant
           (fun w => (pc w = AtLoopHead /\ connected w = false
                      /\ List.filter is_connect (trace w) = [])
                     \/ existsb is_connect (trace w) = true)).
  - clear. intros l w w' Hinv Hs.
    destruct Hinv as [(Hpc & Hc & Hnone)|Hdone].
    + step_inv Hs; simpl in *; inject_pairs; simpl;
        rewrite ?List.filter_app, ?existsb_app, ?Hnone; simpl;
        try congruence; auto;
        try (right; apply orb_true_r).
      rewrite Hpc in *. discriminate.
    + right. destruct (step_trace_grows l w w' Hs) as [evs ->].
      apply existsb_app_true, Hdone.
  - left. simpl. auto.
Qed.

(** X2: [Run] never returns without having called [Connect]: the loop
    tries to connect before it looks at the disconnect channel, so even a
    sink that was disconnected before [Run] started dials once. *)
Theorem Run_dials_before_it_returns
    (s : SyslogSink) (ls : list Label) (w : World) :
  run ls (Run_enter s) = Some w ->
  pc w = Returned ->
  existsb is_connect (trace w) = true.
Proof.
  intros Hrun Hpc.
  destruct (dialed_or_at_start s ls w Hrun) as [(Hhead & _)|Hdone];
    [congruence|exact Hdone].
Qed.

(** X3: a log-kind envelope that carries no log message, or a log
    message without a timestamp, takes the sink down: the dereference in
    [sendLogMessage] faults before [Write] is called, the deferred calls
    run (the writer is closed), and nothing moves afterwards. *)
Theorem log_envelope_without_timestamp_faults
    (w : World) (e : Envelope) (b' : TruncatingBuffer) :
  crashed w = None ->
  pc w = InActivitySelect ->
  recv (buffer w) = Item e b' ->
  GetEventType e = Envelope_LogMessage ->
  match GetLogMessage e with
  | None => True
  | Some l => Timestamp l = None
  end ->
  exists w' : World,
    step SelectItem w = Some w'
    /\ crashed w' = Some NilDereference
    /\ trace w' = trace w ++ [EvClose; EvTimerStop; EvLog Error_ LogStopped]
    /\ syslogWriter (sink w') = Close (syslogWriter (sink w))
    /\ forall l : Label, step l w' = None.
Proof.
  intros Hcr Hpc Hr Hk Hnil.
  unfold syslog.step, select_item, sendLogMessage.
  rewrite Hcr, Hpc, Hr, Hk. simpl EventType_eqb. cbn iota.
  destruct (GetLogMessage e) as [lm|].
  - rewrite Hnil. eexists. split; [reflexivity|]. simpl.
    repeat split; reflexivity.
  - eexists. split; [reflexivity|]. simpl.
    repeat split; reflexivity.
Qed.

Lemma timer_resets_app (tr1 tr2 : list Effect) :
  timer_resets (tr1 ++ tr2) = timer_resets tr1 ++ timer_resets tr2.
Proof. apply flat_map_app. Qed.

Lemma failed_connects_all (tr : list Effect) :
  Forall (fun r => r <> None) (connect_results tr) ->
  length (List.filter is_failed_connect tr) = length (connect_results tr).
Proof.
  induction tr as [|e tr IH]; intros HF; [reflexivity|].
  destruct e; simpl in *; try (apply IH; exact HF).
  inversion HF as [|? ? Hne HF']; subst.
  destruct err; [|congruence]. simpl. f_equal. apply IH, HF'.
Qed.

Lemma step_resets (l : Label) (w w' : World) :
  tries_inv w ->
  (List.filter is_write (trace w) = [] ->
   timer_resets (trace w)
   = map (fun i => backoffStrategy (wrap_int (Z.of_nat i)))
         (seq 0 (length (List.filter is_failed_connect (trace w))))) ->
  step l w = Some w' ->
  List.filter is_write (trace w') = [] ->
  timer_resets (trace w')
  = map (fun i => backoffStrategy (wrap_int (Z.of_nat i)))
        (seq 0 (length (List.filter is_failed_connect (trace w')))).
Proof.
  intros Htries Hres Hs Hnw'.
  destruct (step_trace_grows l w w' Hs) as [evs Hevs].
  assert (Hnw : List.filter is_write (trace w) = []).
  { rewrite Hevs, List.filter_app in Hnw'.
    apply app_eq_nil in Hnw'. tauto. }
  specialize (Hres Hnw). specialize (Htries Hnw). cbv zeta in Htries.
  clear Hevs evs.
  step_inv Hs; simpl in *; inject_pairs;
    try solve [no_write Hnw'];
    rewrite ?timer_resets_app, ?List.filter_app, ?length_app;
    cbn [timer_resets flat_map List.filter is_failed_connect length app];
    rewrite ?app_nil_r, ?Nat.add_0_r;
    try exact Hres.
  (* the failed connect *)
  rewrite Nat.add_1_r, seq_S, map_app, <- Hres. simpl. f_equal.
  destruct Htries as [(HF & _ & [(_ & Ht) | ([Hp|Hp] & _)])
                     | (cr' & _ & _ & Hc & _)];
    try congruence.
  rewrite Ht, (failed_connects_all _ HF). reflexivity.
Qed.

(** X4: as long as nothing has been written, the backoff waits follow
    the strategy attempt by attempt: after [k] failed connects the timer
    was reset to the durations for the attempts 0, 1, ..., k-1, in that
    order. *)
Theorem backoff_follows_attempts
    (s : SyslogSink) (ls : list Label) (w : World) :
  run ls (Run_enter s) = Some w ->
  List.filter is_write (trace w) = [] ->
  timer_resets (trace w)
  = map (fun i => backoffStrategy (wrap_int (Z.of_nat i)))
        (seq 0 (length (List.filter is_failed_connect (trace w)))).
Proof.
  intros Hrun.
  pose (P := fun w : World =>
    tries_inv w
    /\ (List.filter is_write (trace w) = [] ->
        timer_resets (trace w)
        = map (fun i => backoffStrategy (wrap_int (Z.of_nat i)))
              (seq 0 (length (List.filter is_failed_connect (trace w)))))).
  assert (HP : P w).
  { apply (run_invariant P) with (ls := ls) (w := Run_enter s);
      [|subst P; simpl|exact Hrun].
    - subst P. cbv beta. clear.
      intros l w w' (Htries & Hres) Hs. split.
      + eapply step_tries_inv; eauto.
      + eapply step_resets; eauto.
    - split; [apply tries_inv_enter|reflexivity]. }
  exact (proj2 HP).
Qed.

Lemma failures_app (tr1 tr2 : list Effect) :
  failures (tr1 ++ tr2) = (failures tr1 + failures tr2)%nat.
Proof. unfold failures. rewrite !List.filter_app, !length_app. lia. Qed.

Lemma step_tries_bound (l : Label) (w w' : World) :
  (exists k : nat,
      numberOfTries w = wrap_int (Z.of_nat k)
      /\ (k + match pc w with InBackoffSelect => 1 | _ => 0 end
          <= failures (trace w))%nat) ->
  step l w = Some w' ->
  exists k : nat,
    numberOfTries w' = wrap_int (Z.of_nat k)
    /\ (k + match pc w' with InBackoffSelect => 1 | _ => 0 end
        <= failures (trace w'))%nat.
Proof.
  intros (k & Hk & Hle) Hs.
  unfold failures in *.
  step_inv Hs; simpl in *; inject_pairs;
    rewrite ?List.filter_app, ?length_app; simpl;
    try match goal with H : pc w = _ |- _ => rewrite H in *; simpl in * end;
    try solve [exists k; split; [exact Hk|lia]];
    try solve [exists 0%nat; split; [reflexivity|lia]];
    try solve [exists (S k); split;
               [rewrite Hk, wrap_int_succ; f_equal; lia|lia]].
Qed.

(** X5: the attempt counter is never negative and never more than the
    failed connects and failed writes so far (as long as those are fewer
    than 2^63, so the counter has not wrapped). *)
Theorem attempt_counter_bounded
    (s : SyslogSink) (ls : list Label) (w : World) :
  run ls (Run_enter s) = Some w ->
  Z.of_nat (failures (trace w)) <= int_max ->
  0 <= numberOfTries w <= Z.of_nat (failures (trace w)).
Proof.
  intros Hrun Hmax.
  assert (Hinv : exists k : nat,
             numberOfTries w = wrap_int (Z.of_nat k)
             /\ (k + match pc w with InBackoffSelect => 1 | _ => 0 end
                 <= failures (trace w))%nat).
  { revert Hrun.
    apply (run_invariant
             (fun w => exists k : nat,
                  numberOfTries w = wrap_int (Z.of_nat k)
                  /\ (k + match pc w with InBackoffSelect => 1 | _ => 0 end
                      <= failures (trace w))%nat)).
    - intros l w0 w1 H0 Hs. eapply step_tries_bound; eauto.
    - exists 0%nat. split; [reflexivity|simpl; lia]. }
  destruct Hinv as (k & Hk & Hle).
  rewrite Hk, wrap_int_small; [lia|].
  unfold int_min, int_max in *. lia.
Qed.

(** When [Run] has returned, its timer is stopped. *)
Lemma returned_timer_stopped (s : SyslogSink) (ls : list Label) (w : World) :
  run ls (Run_enter s) = Some w ->
  pc w = Returned -> armed (timer w) = false.
Proof.
  apply (run_invariant (fun w => pc w = Returned -> armed (timer w) = false)).
  - clear. intros l w w' Hinv Hs Hpc.
    step_inv Hs; simpl in *; inject_pairs; simpl in *;
      try discriminate Hpc; try reflexivity; auto.
  - discriminate.
Qed.

(** X6: the end of a sink.  Once [Disconnect] has been called, [Run] has
    returned and the filter goroutine has left its loop, nothing moves
    any more: the input is no longer read, the timer cannot fire, the
    writer gets no call, and a further [Disconnect] changes nothing. *)
Theorem disconnected_sink_is_quiescent
    (s : SyslogSink) (ls : list Label) (w : World) :
  once_inv s ->
  run ls (Run_enter s) = Some w ->
  disconnectChannel (sink w) = true ->
  pc w = Returned ->
  filterRunning w = false ->
  forall (l : Label) (w' : World),
    step l w = Some w' -> l = CallDisconnect /\ w' = w.
Proof.
  intros Hs Hrun Hch Hpc Hf l w' Hstep.
  pose proof (reachable_once ls s w Hs Hrun) as Hinv.
  pose proof (returned_timer_stopped s ls w Hrun Hpc) as Harmed.
  unfold once_inv in Hinv. rewrite Hch in Hinv.
  unfold syslog.step, Disconnect in Hstep.
  rewrite Hpc, Hf, Harmed, <- Hinv in Hstep.
  destruct (crashed w); [discriminate|].
  destruct l; simpl in Hstep; try discriminate Hstep.
  injection Hstep as <-. split; [reflexivity|].
  unfold emit, set_sink. simpl. rewrite app_nil_r.
  destruct w; reflexivity.
Qed.

(** X7: whatever happens in a run, the sink keeps its identity and its
    configuration: [Identifier] and [StreamId] answer as they did when
    [Run] was entered, and the buffer size and the origin are the same. *)
Theorem sink_identity_is_stable
    (s : SyslogSink) (ls : list Label) (w : World) :
  run ls (Run_enter s) = Some w ->
  Identifier (sink w) = Identifier s
  /\ StreamId (sink w) = StreamId s
  /\ messageDrainBufferSize (sink w) = messageDrainBufferSize s
  /\ dropsondeOrigin (sink w) = dropsondeOrigin s.
Proof.
  apply (run_invariant
           (fun w => Identifier (sink w) = Identifier s
                     /\ StreamId (sink w) = StreamId s
                     /\ messageDrainBufferSize (sink w)
                        = messageDrainBufferSize s
                     /\ dropsondeOrigin (sink w) = dropsondeOrigin s)).
  - clear. intros l w w' (Hi & Hst & Hsz & Ho) Hs.
    unfold Identifier, StreamId in *.
    step_inv Hs; simpl; auto.
  - simpl. auto.
Qed.

End SinkProperties.

(** ** The event listener *)

Section ListenerProperties.
Import eventlistener.
Context {R : Type} `{!heartbeatRequester R}.

#[local] Abbreviation World := (@World R).
#[local] Abbreviation step := (@step R _).
#[local] Abbreviation run := (@run R _).

#[local] Opaque readBufferSize dataChannelCap.

Ltac break_match H :=
  repeat match type of H with
         | context [match ?x with _ => _ end] =>
             lazymatch x with
             | context [match _ with _ => _ end] => fail
             | _ => destruct x eqn:?
             end
         end.
Ltac lstep_inv H :=
  unfold eventlistener.step, Stop, consume, run_goroutine in H;
  break_match H; try discriminate H;
  injection H as <-.

Lemma lrun_invariant (P : World -> Prop) :
  (forall l w w', P w -> step l w = Some w' -> P w') ->
  forall ls w w', P w -> run ls w = Some w' -> P w'.
Proof.
  intros Hstep. induction ls as [|l ls IH]; intros w w' HP Hrun; simpl in Hrun.
  - injection Hrun as <-. exact HP.
  - destruct (step l w) as [w1|] eqn:Hs; [|discriminate].
    eapply IH; [eapply Hstep; eauto|exact Hrun].
Qed.

(** *** [Stop] and the connection *)

Lemma step_connection (l : Label) (w w' : World) :
  step l w = Some w' ->
  if is_bound l then exists c, connection (listener w') = Some c
  else connection (listener w') = connection (listener w).
Proof.
  intros Hs. lstep_inv Hs; simpl; auto.
  all: unfold Start_listen, Start_read, Start_publish, Start_return, make;
    simpl; eauto.
  all: try (destruct (KnownAndReset _ _); reflexivity).
  destruct r; simpl; eauto.
Qed.

Lemma run_connection (ls : list Label) : forall w w' : World,
  run ls w = Some w' ->
  connection (listener w') = None
  <-> connection (listener w) = None /\ existsb is_bound ls = false.
Proof.
  induction ls as [|l ls IH]; intros w w' Hrun; simpl in Hrun.
  - injection Hrun as <-. simpl. tauto.
  - destruct (step l w) as [w1|] eqn:Hs; [|discriminate].
    rewrite (IH w1 w' Hrun). simpl.
    pose proof (step_connection l w w1 Hs) as Hc.
    destruct (is_bound l); simpl.
    + destruct Hc as [c Hc]. rewrite Hc. split; intros [H1 H2]; discriminate.
    + rewrite Hc. tauto.
Qed.

(** C10: as long as no [Start] has bound the socket and stored the
    connection, [Stop] dereferences the nil connection and faults (and a
    call of [Stop] takes the process down); once [Start] has stored the
    connection, [Stop] closes it and returns. *)
Theorem Stop_before_Start_faults (host name : string) (req : R) :
  Stop (init (New host name req)) = Panic NilDereference
  /\ forall (ls : list Label) (w : World),
      run ls (init (New host name req)) = Some w ->
      (existsb is_bound ls = false ->
       Stop w = Panic NilDereference
       /\ (crashed w = None -> pc w <> Exited ->
           exists w', step CallStop w = Some w'
                      /\ crashed w' = Some NilDereference))
      /\ (existsb is_bound ls = true ->
          exists w', Stop w = Ok w' /\ connClosed w' = true
                     /\ crashed w' = crashed w).
Proof.
  split; [reflexivity|].
  intros ls w Hrun.
  pose proof (run_connection ls _ _ Hrun) as Hc. simpl in Hc.
  split.
  - intros Hb.
    assert (Hnone : connection (listener w) = None) by (apply Hc; auto).
    unfold Stop. rewrite Hnone. split; [reflexivity|].
    intros Hcr Hpc. unfold eventlistener.step, Stop. rewrite Hcr, Hnone.
    destruct (pc w); try contradiction; eexists; split; reflexivity.
  - intros Hb.
    destruct (connection (listener w)) as [c|] eqn:Hconn.
    + unfold Stop. rewrite Hconn. eexists. split; [reflexivity|].
      split; reflexivity.
    + destruct Hc as [Hc _]. destruct (Hc eq_refl) as [_ Hf]. congruence.
Qed.

(** *** Liveness tracking *)

Lemma publish_calls (w w' : World) (readBuffer : Slice) (conn : PacketConn)
    (readData : Slice) (senderAddr : Addr) :
  pc w = Sending readBuffer conn readData senderAddr ->
  step Publish w = Some w' ->
  let known := fst (KnownAndReset senderAddr (requester (listener w))) in
  calls w'
  = calls w ++ CallKnownAndReset senderAddr known
            :: (if known then [] else [GoStart senderAddr conn])
  /\ goroutines w'
     = goroutines w ++ (if known then [] else [(senderAddr, conn)]).
Proof.
  intros Hpc Hs known. subst known.
  unfold eventlistener.step in Hs. rewrite Hpc in Hs.
  destruct (crashed w); [discriminate|].
  destruct (_ <? _)%nat; [|discriminate].
  injection Hs as <-. unfold Start_publish.
  destruct (KnownAndReset senderAddr (requester (listener w))) as [known r'].
  simpl. split; [reflexivity|].
  destruct known; [rewrite app_nil_r|]; reflexivity.
Qed.

Lemma other_moves_calls (l : Label) (w w' : World) :
  step l w = Some w' ->
  is_Publish l = false ->
  calls w' = calls w /\ (length (goroutines w') <= length (goroutines w))%nat.
Proof.
  intros Hs Hl. lstep_inv Hs; try discriminate Hl; simpl.
  all: unfold Start_listen, Start_read, Start_return, make, ReadFrom; simpl.
  all: try (split; [reflexivity|lia]).
  1: destruct r; simpl; split; reflexivity || lia.
  all: split; [reflexivity|]; rewrite length_delete; [lia|];
    eexists; eassumption.
Qed.

Lemma step_calls_counts (l : Label) (w w' : World) (a : Addr) :
  step l w = Some w' ->
  exists cs : list ReqCall,
    calls w' = calls w ++ cs
    /\ length (List.filter (is_start_for a) cs)
       = length (List.filter (is_unknown_for a) cs)
    /\ length (List.filter is_check cs) = length (List.filter is_Publish [l]).
Proof.
  intros Hs. destruct (is_Publish l) eqn:Hl.
  - destruct l; try discriminate Hl.
    pose proof Hs as Hs'. unfold eventlistener.step in Hs'.
    destruct (crashed w); [discriminate|].
    destruct (pc w) eqn:Hpc; try discriminate Hs'. clear Hs'.
    destruct (publish_calls _ _ _ _ _ _ Hpc Hs) as [Hc _].
    eexists. split; [exact Hc|]. simpl.
    destruct (fst (KnownAndReset senderAddr (requester (listener w)))); simpl.
    + split; reflexivity.
    + destruct (String.eqb a senderAddr); split; reflexivity.
  - destruct (other_moves_calls l w w' Hs Hl) as [Hc _].
    exists []. rewrite app_nil_r. split; [exact Hc|].
    simpl. rewrite Hl. split; reflexivity.
Qed.

Lemma run_calls_counts (ls : list Label) (a : Addr) : forall w w' : World,
  run ls w = Some w' ->
  exists cs : list ReqCall,
    calls w' = calls w ++ cs
    /\ length (List.filter (is_start_for a) cs)
       = length (List.filter (is_unknown_for a) cs)
    /\ length (List.filter is_check cs) = length (List.filter is_Publish ls).
Proof.
  induction ls as [|l ls IH]; intros w w' Hrun; simpl in Hrun.
  - injection Hrun as <-. exists []. rewrite app_nil_r. auto.
  - destruct (step l w) as [w1|] eqn:Hs; [|discriminate].
    destruct (step_calls_counts l w w1 a Hs) as (cs1 & H1 & Hs1 & Hk1).
    destruct (IH w1 w' Hrun) as (cs2 & H2 & Hs2 & Hk2).
    exists (cs1 ++ cs2). rewrite H2, H1, <- app_assoc.
    split; [reflexivity|].
    rewrite !List.filter_app, !length_app.
    change (l :: ls) with ([l] ++ ls). rewrite List.filter_app, length_app.
    lia.
Qed.

(** C7: when a datagram has been published, the listener asks
    [KnownAndReset] once for the sender, and spawns [Start] for that
    sender once if the answer is false and not at all if it is true; no
    other move calls the requester or spawns anything.  So in every run
    the [Start]s spawned for an address are as many as the [false]
    answers for it, and the checks as many as the datagrams published. *)
Theorem Start_spawned_iff_not_known :
  (forall (w w' : World) (readBuffer : Slice) (conn : PacketConn)
          (readData : Slice) (senderAddr : Addr),
      pc w = Sending readBuffer conn readData senderAddr ->
      step Publish w = Some w' ->
      let known := fst (KnownAndReset senderAddr (requester (listener w))) in
      calls w'
      = calls w ++ CallKnownAndReset senderAddr known
                :: (if known then [] else [GoStart senderAddr conn])
      /\ goroutines w'
         = goroutines w ++ (if known then [] else [(senderAddr, conn)]))
  /\ (forall (l : Label) (w w' : World),
        step l w = Some w' ->
        is_Publish l = false ->
        calls w' = calls w
        /\ (length (goroutines w') <= length (goroutines w))%nat)
  /\ (forall (e : EventListener) (ls : list Label) (w : World) (a : Addr),
        run ls (init e) = Some w ->
        length (List.filter (is_start_for a) (calls w))
        = length (List.filter (is_unknown_for a) (calls w))
        /\ length (List.filter is_check (calls w))
           = length (List.filter is_Publish ls)).
Proof.
  split; [exact publish_calls|]. split; [exact other_moves_calls|].
  intros e ls w a Hrun.
  destruct (run_calls_counts ls a _ _ Hrun) as (cs & Hc & Hs & Hk).
  simpl in Hc. rewrite Hc. split; assumption.
Qed.

(** *** Publishing datagrams *)

Lemma take_min_length (p : bytes) (n : nat) :
  take (Nat.min (length p) n) p = take n p.
Proof.
  destruct (Nat.le_ge_cases (length p) n) as [Hle|Hge].
  - rewrite Nat.min_l by exact Hle. rewrite !take_ge by lia. reflexivity.
  - rewrite Nat.min_r by exact Hge. reflexivity.
Qed.

Lemma slices_of_snoc (ds : list bytes) (p : bytes) : forall a : nat,
  slices_of a (ds ++ [p])
  = slices_of a ds
    ++ [mkSlice (a + length ds) (Nat.min (length p) readBufferSize)].
Proof.
  induction ds as [|q ds IH]; intros a; simpl.
  - rewrite Nat.add_0_r. reflexivity.
  - rewrite IH, Nat.add_succ_r. reflexivity.
Qed.

Lemma slices_of_base (ds : list bytes) : forall a : nat,
  map base (slices_of a ds) = seq a (length ds).
Proof.
  induction ds as [|q ds IH]; intros a; simpl; [reflexivity|].
  rewrite IH. reflexivity.
Qed.

Lemma slices_of_len (ds : list bytes) : forall a : nat,
  map len (slices_of a ds)
  = map (fun p => Nat.min (length p) readBufferSize) ds.
Proof.
  induction ds as [|q ds IH]; intros a; simpl; [reflexivity|].
  rewrite IH. reflexivity.
Qed.

(** What the slices of [ds] denote in a store laid out for [ds]. *)
Lemma slices_of_load (ds : list bytes) : forall (pre : Heap),
  map (load (pre ++ map (take readBufferSize) ds))
      (slices_of (length pre) ds)
  = map (take readBufferSize) ds.
Proof.
  induction ds as [|q ds IH]; intros pre; simpl; [reflexivity|].
  f_equal.
  - unfold load, array; simpl.
    rewrite list_lookup_middle by reflexivity. simpl.
    rewrite take_take.
    replace (Nat.min (Nat.min (length q) readBufferSize) readBufferSize)
      with (Nat.min (length q) readBufferSize) by lia.
    apply take_min_length.
  - specialize (IH (pre ++ [take readBufferSize q])).
    rewrite <- app_assoc in IH. simpl in IH.
    rewrite length_app in IH. simpl in IH.
    rewrite Nat.add_1_r in IH. exact IH.
Qed.

Lemma slices_of_sized (ds : list bytes) : forall (pre : Heap),
  Forall (fun sl => len sl
                    = length (array (pre ++ map (take readBufferSize) ds)
                                    (base sl)))
         (slices_of (length pre) ds).
Proof.
  induction ds as [|q ds IH]; intros pre; simpl; constructor.
  - unfold array; simpl.
    rewrite list_lookup_middle by reflexivity. simpl.
    rewrite length_take. lia.
  - specialize (IH (pre ++ [take readBufferSize q])).
    rewrite <- app_assoc in IH. simpl in IH.
    rewrite length_app in IH. simpl in IH.
    rewrite Nat.add_1_r in IH. exact IH.
Qed.

(** The two store operations of the loop body. *)
Lemma ReadFrom_store (buf : bytes) (rest : Heap) (payload : bytes) :
  length buf = readBufferSize ->
  let readCount := Nat.min (length payload) readBufferSize in
  ReadFrom (mkSlice 0 readBufferSize) payload (buf :: rest)
  = (readCount, (take readCount payload ++ drop readCount buf) :: rest).
Proof.
  intros Hbuf readCount.
  unfold ReadFrom, write_prefix, array. simpl. fold readCount.
  rewrite length_take.
  replace (Nat.min readCount (length payload)) with readCount
    by (subst readCount; lia).
  reflexivity.
Qed.

Lemma copy_into_fresh (h : Heap) (a n : nat) :
  (a < length h)%nat ->
  (n <= length (array h a))%nat ->
  copy (mkSlice (length h) n) (mkSlice a n) (h ++ [replicate n Byte.x00])
  = h ++ [take n (array h a)].
Proof.
  intros Ha Hn. unfold copy, write_prefix, load. simpl.
  rewrite Nat.min_id.
  assert (Hsrc : array (h ++ [replicate n Byte.x00]) a = array h a).
  { unfold array. rewrite lookup_app_l by exact Ha. reflexivity. }
  assert (Hdst : array (h ++ [replicate n Byte.x00]) (length h)
                 = replicate n Byte.x00).
  { unfold array. rewrite list_lookup_middle by reflexivity. reflexivity. }
  rewrite Hsrc, Hdst, take_take, Nat.min_id, length_take.
  replace (Nat.min n (length (array h a))) with n by lia.
  rewrite drop_replicate, Nat.sub_diag. simpl. rewrite app_nil_r.
  rewrite (insert_app_r_alt h [replicate n Byte.x00] (length h))
    by apply Nat.le_refl.
  rewrite Nat.sub_diag. reflexivity.
Qed.

#[local] Arguments ReadFrom : simpl never.
#[local] Arguments copy : simpl never.
#[local] Arguments make : simpl never.

Lemma step_store_inv (l : Label) (ds : list bytes) (w w' : World) :
  store_inv ds w -> step l w = Some w' ->
  store_inv (ds ++ datagrams [l]) w'.
Proof.
  unfold store_inv. intros Hinv Hs.
  unfold eventlistener.step in Hs.
  destruct (crashed w); [discriminate|].
  destruct l as [r| |payload senderAddr| | | |i|];
    destruct (pc w) as [|bound|rb conn|rb conn rd addr| |] eqn:Hpc;
    try discriminate Hs; simpl datagrams; rewrite ?app_nil_r.
  all: try solve [unfold consume, run_goroutine, Stop in Hs;
                  break_match Hs; try discriminate Hs; injection Hs as <-;
                  simpl; try rewrite Hpc; exact Hinv].
  - (* Listen *)
    injection Hs as <-.
    unfold Start_listen. destruct r as [conn|err]; simpl; exact Hinv.
  - (* StoreConnection *)
    injection Hs as <-.
    destruct Hinv as (Hh & Hp & ->). unfold Start_store.
    rewrite Hh. unfold make. simpl. rewrite Hp.
    split; [intros rb [= <-]; reflexivity|].
    split; [reflexivity|].
    eexists. split; [|reflexivity]. apply length_replicate.
  - (* Datagram *)
    destruct (connClosed w); [discriminate|]. injection Hs as <-.
    destruct Hinv as (Hrb & Hp & buf & Hbuf & Hh).
    rewrite (Hrb rb eq_refl).
    unfold Start_read. rewrite Hh.
    rewrite (ReadFrom_store buf _ payload Hbuf). cbv zeta.
    set (readCount := Nat.min (length payload) readBufferSize).
    unfold make.
    cbn [set_pc set_heap set_listener pc heap published listener base
         scratch in_flight].
    set (h1 := (take readCount payload ++ drop readCount buf)
                 :: map (take readBufferSize) ds).
    assert (Hrc : length (take readCount payload) = readCount).
    { rewrite length_take. subst readCount. lia. }
    assert (Harr : array h1 0 = take readCount payload ++ drop readCount buf)
      by reflexivity.
    rewrite (copy_into_fresh h1 0 readCount);
      [|subst h1; simpl; lia
       |rewrite Harr, length_app, Hrc; lia].
    rewrite Harr, (take_app_length' _ _ readCount) by (symmetry; exact Hrc).
    split; [intros rb' [= <-]; reflexivity|]. split.
    + simpl in Hp. rewrite app_nil_r in Hp. rewrite Hp, slices_of_snoc.
      subst h1. simpl. rewrite length_map. reflexivity.
    + exists (take readCount payload ++ drop readCount buf). split.
      * rewrite length_app, Hrc, length_drop, Hbuf. subst readCount. lia.
      * subst h1. simpl. rewrite map_app. simpl.
        subst readCount. rewrite take_min_length. reflexivity.
  - (* Publish *)
    destruct (_ <? _)%nat; [|discriminate]. injection Hs as <-.
    destruct Hinv as (Hrb & Hp & Hh).
    unfold Start_publish.
    destruct (KnownAndReset _ _) as [known r']. simpl.
    split; [intros rb' [= <-]; apply Hrb; reflexivity|].
    split; [rewrite app_nil_r; exact Hp|exact Hh].
  - (* ReadError *)
    injection Hs as <-.
    destruct Hinv as (Hrb & Hp & Hh).
    unfold Start_return; simpl.
    split; [discriminate|]. split; [exact Hp|exact Hh].
Qed.

Lemma run_store_inv (ls : list Label) : forall (ds : list bytes) (w w' : World),
  store_inv ds w -> run ls w = Some w' ->
  store_inv (ds ++ datagrams ls) w'.
Proof.
  induction ls as [|l ls IH]; intros ds w w' Hinv Hrun; simpl in Hrun.
  - injection Hrun as <-. simpl. rewrite app_nil_r. exact Hinv.
  - destruct (step l w) as [w1|] eqn:Hs; [|discriminate].
    change (l :: ls) with ([l] ++ ls).
    unfold datagrams. rewrite flat_map_app, app_assoc.
    eapply IH; [|exact Hrun].
    eapply step_store_inv; eauto.
Qed.

(** The channel: what was sent is what was received followed by what is
    still queued, and the queue stays within its capacity. *)
Lemma step_channel (l : Label) (w w' : World) :
  published w = received w ++ dataChannel (listener w)
  /\ (length (dataChannel (listener w)) <= dataChannelCap)%nat ->
  step l w = Some w' ->
  published w' = received w' ++ dataChannel (listener w')
  /\ (length (dataChannel (listener w')) <= dataChannelCap)%nat.
Proof.
  intros [Hp Hc] Hs.
  unfold eventlistener.step in Hs.
  destruct (crashed w); [discriminate|].
  destruct l as [r| |payload senderAddr| | | |i|];
    destruct (pc w) as [|bound|rb conn|rb conn rd addr| |] eqn:Hpc;
    try discriminate Hs.
  all: try solve [unfold run_goroutine, Stop in Hs;
                  break_match Hs; try discriminate Hs; injection Hs as <-;
                  simpl; auto].
  all: try solve [unfold consume in Hs;
                  destruct (dataChannel (listener w)) as [|sl rest] eqn:Hd;
                  [discriminate|]; injection Hs as <-; simpl;
                  rewrite Hp, <- app_assoc; simpl in Hc;
                  split; [reflexivity|lia]].
  - injection Hs as <-. unfold Start_listen.
    destruct r; simpl; auto.
  - destruct (Nat.ltb_spec (length (dataChannel (listener w))) dataChannelCap);
      [|discriminate].
    injection Hs as <-. unfold Start_publish.
    destruct (KnownAndReset _ _). simpl.
    rewrite Hp, length_app, app_assoc. simpl. split; [reflexivity|lia].
Qed.

(** C4: in every run of the listener, the slices sent on the data
    channel (with the one [Start] holds while the channel is full) denote,
    in the final store, the payloads of the datagrams read, one slice per
    datagram and in the order of arrival, byte for byte (up to the 65535
    bytes the read buffer holds, which is every byte of a UDP datagram);
    the length of each slice is the number of bytes read and the slice
    covers the whole of its array; the arrays are pairwise distinct and
    none is the read buffer; and the consumer receives the slices in the
    order they were sent, the queue never exceeding its capacity. *)
Theorem datagrams_published_once_in_order
    (host name : string) (req : R) (ls : list Label) (w : World) :
  run ls (init (New host name req)) = Some w ->
  let sent := published w ++ in_flight (pc w) in
  map (load (heap w)) sent = map (take readBufferSize) (datagrams ls)
  /\ (Forall (fun p => (length p <= readBufferSize)%nat) (datagrams ls) ->
      map (load (heap w)) sent = datagrams ls)
  /\ map len sent
     = map (fun p => Nat.min (length p) readBufferSize) (datagrams ls)
  /\ Forall (fun sl => len sl = length (array (heap w) (base sl))) sent
  /\ NoDup (map base sent)
  /\ (forall rb, scratch (pc w) = Some rb -> ~ In (base rb) (map base sent))
  /\ published w = received w ++ dataChannel (listener w)
  /\ (length (dataChannel (listener w)) <= dataChannelCap)%nat.
Proof.
  intros Hrun sent.
  assert (Hchan : published w = received w ++ dataChannel (listener w)
                  /\ (length (dataChannel (listener w)) <= dataChannelCap)%nat).
  { apply (lrun_invariant
             (fun w => published w = received w ++ dataChannel (listener w)
                       /\ (length (dataChannel (listener w))
                           <= dataChannelCap)%nat))
      with (ls := ls) (w := init (New host name req)).
    - intros l w0 w1 H0 Hs. eapply step_channel; eauto.
    - simpl. split; [reflexivity|lia].
    - exact Hrun. }
  assert (Hstore : store_inv (datagrams ls) w).
  { apply (run_store_inv ls [] (init (New host name req)) w); [|exact Hrun].
    unfold store_inv. simpl. auto. }
  assert (Htake : Forall (fun p => (length p <= readBufferSize)%nat)
                         (datagrams ls) ->
                  map (take readBufferSize) (datagrams ls) = datagrams ls).
  { clear. induction (datagrams ls) as [|p ps IH]; intros HF; [reflexivity|].
    inversion HF; subst. simpl. rewrite take_ge by assumption.
    f_equal. apply IH. assumption. }
  unfold store_inv in Hstore.
  assert (Hcases :
    (sent = [] /\ datagrams ls = [] /\ scratch (pc w) = None)
    \/ ((forall rb, scratch (pc w) = Some rb -> base rb = 0%nat)
        /\ sent = slices_of 1 (datagrams ls)
        /\ exists buf : bytes,
            heap w = [buf] ++ map (take readBufferSize) (datagrams ls))).
  { subst sent. destruct (pc w) eqn:Hpc.
    - left. destruct Hstore as (_ & -> & ->). auto.
    - left. destruct Hstore as (_ & -> & ->). auto.
    - right. destruct Hstore as (Hrb & Hp & buf & _ & Hh).
      split; [intros rb Hs; rewrite (Hrb rb Hs); reflexivity|].
      split; [exact Hp|]. exists buf. exact Hh.
    - right. destruct Hstore as (Hrb & Hp & buf & _ & Hh).
      split; [intros rb Hs; rewrite (Hrb rb Hs); reflexivity|].
      split; [exact Hp|]. exists buf. exact Hh.
    - right. destruct Hstore as (Hrb & Hp & buf & _ & Hh).
      split; [discriminate|].
      split; [exact Hp|]. exists buf. exact Hh.
    - left. destruct Hstore as (_ & -> & ->). auto. }
  destruct Hcases as [(-> & -> & Hsc) | (Hsc & -> & buf & Hh)].
  - simpl.
    split; [reflexivity|]. split; [reflexivity|]. split; [reflexivity|].
    split; [constructor|]. split; [constructor|].
    split; [|exact Hchan].
    intros rb Hrb. congruence.
  - rewrite Hh.
    pose proof (slices_of_load (datagrams ls) [buf]) as Hload.
    pose proof (slices_of_sized (datagrams ls) [buf]) as Hsized.
    simpl length in Hload, Hsized.
    split; [exact Hload|].
    split; [intros HF; rewrite Hload; apply Htake, HF|].
    split; [apply slices_of_len|].
    split; [exact Hsized|].
    rewrite slices_of_base.
    split; [apply NoDup_ListNoDup, seq_NoDup|].
    split; [|exact Hchan].
    intros rb Hrb. rewrite (Hsc rb Hrb), in_seq. lia.
Qed.

(** *** Further properties of the listener *)

Lemma wrap_uint64_add (a b : Z) :
  wrap_uint64 (wrap_uint64 a + b) = wrap_uint64 (a + b).
Proof. unfold wrap_uint64. apply Zplus_mod_idemp_l. Qed.

Lemma step_counters (l : Label) (ds : list bytes) (w w' : World) :
  (forall rb, scratch (pc w) = Some rb -> len rb = readBufferSize) ->
  receivedMessageCount (listener w)
  = wrap_uint64 (Z.of_nat (length ds))
  /\ receivedByteCount (listener w)
     = wrap_uint64 (Z.of_nat (list_sum (map read_count ds))) ->
  step l w = Some w' ->
  receivedMessageCount (listener w')
  = wrap_uint64 (Z.of_nat (length (ds ++ datagrams [l])))
  /\ receivedByteCount (listener w')
     = wrap_uint64 (Z.of_nat (list_sum (map read_count (ds ++ datagrams [l])))).
Proof.
  intros Hrb [Hm Hb] Hs.
  unfold eventlistener.step in Hs.
  destruct (crashed w); [discriminate|].
  destruct l as [r| |payload senderAddr| | | |i|];
    destruct (pc w) as [|bound|rb conn|rb conn rd addr| |] eqn:Hpc;
    try discriminate Hs; simpl datagrams; rewrite ?app_nil_r.
  all: try solve [unfold consume, run_goroutine, Stop in Hs;
                  break_match Hs; try discriminate Hs; injection Hs as <-;
                  simpl; auto].
  - injection Hs as <-. unfold Start_listen.
    destruct r; simpl; auto.
  - destruct (connClosed w); [discriminate|]. injection Hs as <-.
    unfold Start_read, ReadFrom, make. simpl.
    rewrite Hm, Hb, !wrap_uint64_add.
    rewrite length_app, map_app, list_sum_app. simpl.
    rewrite (Hrb rb eq_refl), Nat.add_0_r. fold (read_count payload).
    split; f_equal; lia.
  - destruct (_ <? _)%nat; [|discriminate]. injection Hs as <-.
    unfold Start_publish. destruct (KnownAndReset _ _). simpl. auto.
Qed.

(** X8: the metrics are exact.  In every run, [receivedMessageCount] is
    the number of datagrams read and [receivedByteCount] the number of
    bytes read (both modulo 2^64, as [uint64] counters), counted as soon
    as a datagram is read; [currentBufferCount] is the number of payloads
    sent and not yet received, at most 1024. *)
Theorem metrics_are_exact
    (host name : string) (req : R) (ls : list Label) (w : World) :
  run ls (init (New host name req)) = Some w ->
  metrics (listener w)
  = (Z.of_nat (length (published w) - length (received w)),
     wrap_uint64 (Z.of_nat (length (datagrams ls))),
     wrap_uint64 (Z.of_nat (list_sum (map read_count (datagrams ls)))))
  /\ (length (published w) - length (received w) <= dataChannelCap)%nat
  /\ Emit (listener w) = (name, metrics (listener w)).
Proof.
  intros Hrun.
  assert (Hchan : published w = received w ++ dataChannel (listener w)
                  /\ (length (dataChannel (listener w)) <= dataChannelCap)%nat).
  { apply (lrun_invariant
             (fun w => published w = received w ++ dataChannel (listener w)
                       /\ (length (dataChannel (listener w))
                           <= dataChannelCap)%nat))
      with (ls := ls) (w := init (New host name req)).
    - intros l w0 w1 H0 Hs. eapply step_channel; eauto.
    - simpl. split; [reflexivity|lia].
    - exact Hrun. }
  assert (Hname : contextName (listener w) = name).
  { revert Hrun.
    apply (lrun_invariant (fun w => contextName (listener w) = name));
      [|reflexivity].
    intros l w0 w1 H0 Hs.
    unfold eventlistener.step in Hs.
    destruct (crashed w0); [discriminate|].
    destruct l; destruct (pc w0); try discriminate Hs;
      unfold consume, run_goroutine, Stop, Start_listen, Start_read,
             Start_publish, Start_return in Hs;
      break_match Hs; try discriminate Hs; injection Hs as <-;
      simpl; exact H0. }
  assert (Hcount :
    forall (ls : list Label) (ds : list bytes) (w0 w1 : World),
      store_inv ds w0 ->
      receivedMessageCount (listener w0) = wrap_uint64 (Z.of_nat (length ds))
      /\ receivedByteCount (listener w0)
         = wrap_uint64 (Z.of_nat (list_sum (map read_count ds))) ->
      run ls w0 = Some w1 ->
      receivedMessageCount (listener w1)
      = wrap_uint64 (Z.of_nat (length (ds ++ datagrams ls)))
      /\ receivedByteCount (listener w1)
         = wrap_uint64
             (Z.of_nat (list_sum (map read_count (ds ++ datagrams ls))))).
  { clear. induction ls as [|l ls IH]; intros ds w0 w1 Hst Hc Hr;
      simpl in Hr.
    - injection Hr as <-. simpl. rewrite app_nil_r. exact Hc.
    - destruct (step l w0) as [w2|] eqn:Hs; [|discriminate].
      change (l :: ls) with ([l] ++ ls).
      unfold datagrams. rewrite flat_map_app, app_assoc.
      apply (IH _ w2 w1); [eapply step_store_inv; eauto| |exact Hr].
      apply (step_counters l ds w0 w2); [|exact Hc|exact Hs].
      intros rb Hrb. unfold store_inv in Hst.
      destruct (pc w0); try discriminate Hrb;
        destruct Hst as (Hsl & _); rewrite (Hsl rb Hrb); reflexivity. }
  destruct (Hcount ls [] (init (New host name req)) w) as [Hm Hb];
    [unfold store_inv; simpl; auto|split; reflexivity|exact Hrun|].
  simpl in Hm, Hb.
  destruct Hchan as [Hp Hcap].
  assert (Hlen : (length (published w) - length (received w))%nat
                 = length (dataChannel (listener w))).
  { rewrite Hp, length_app. lia. }
  split; [|split].
  - unfold metrics. rewrite Hm, Hb, Hlen. reflexivity.
  - rewrite Hlen. exact Hcap.
  - unfold Emit. rewrite Hname. reflexivity.
Qed.








End ListenerProperties.

(** ** The registry generator *)

Section GenProperties.
Import Ascii ipv6gen.
Variable TrimSpace : string -> string.
Variable Atoi : string -> Z * option error.

Lemma Split_nonempty (s : string) (sep : ascii) : Split s sep <> [].
Proof.
  destruct s as [|c rest]; simpl; [discriminate|].
  destruct (Ascii.eqb c sep); [discriminate|].
  destruct (Split rest sep); discriminate.
Qed.

(** Joining the lines of [s] with spaces is [s] with its newlines turned
    into spaces. *)
Lemma Join_Split (s : string) :
  Join (Split s newline) " " = translate newline space s.
Proof.
  unfold Join. induction s as [|c rest IH]; simpl; [reflexivity|].
  destruct (Ascii.eqb c newline) eqn:Hc.
  - pose proof (Split_nonempty rest newline) as Hne.
    destruct (Split rest newline) as [|piece pieces]; [contradiction|].
    simpl in *. rewrite IH. reflexivity.
  - pose proof (Split_nonempty rest newline) as Hne.
    destruct (Split rest newline) as [|piece pieces]; [contradiction|].
    simpl in *. rewrite <- IH.
    destruct pieces; reflexivity.
Qed.

Lemma flatten_lines (ss : list string) :
  ss <> [] ->
  (if (1 <? length ss)%nat then Join ss " " else hd EmptyString ss)
  = Join ss " ".
Proof.
  intros Hne. destruct ss as [|x [|y rest]]; [contradiction|reflexivity|].
  reflexivity.
Qed.

(** A loop that fills slot [i] from record [i] computes a [map]. *)
Lemma fill_slots {A B : Type} (f : A -> B) (zero : B)
    (body : nat -> A -> list B -> list B) :
  (forall i a prs, prs !! i = Some zero ->
                   body i a prs = <[i := f a]> prs) ->
  forall (records : list A) (done : list B),
    fold_left (fun prs ia => body (fst ia) (snd ia) prs)
              (combine (seq (length done) (length records)) records)
              (done ++ replicate (length records) zero)
    = done ++ map f records.
Proof.
  intros Hbody. induction records as [|a records IH]; intros done; simpl.
  - reflexivity.
  - rewrite Hbody by (apply list_lookup_middle; reflexivity).
    rewrite (insert_app_r_alt done _ (length done)) by apply Nat.le_refl.
    rewrite Nat.sub_diag. simpl.
    specialize (IH (done ++ [f a])).
    rewrite length_app in IH. simpl in IH. rewrite Nat.add_1_r in IH.
    rewrite <- !app_assoc in IH. simpl in IH. exact IH.
Qed.

Lemma escapeICMP_at_slot (i : nat) (pr : icmpv6ParamRecord)
    (prs : list canonICMPv6ParamRecord) :
  prs !! i = Some zeroICMP ->
  escapeICMP_at TrimSpace Atoi i pr prs
  = <[i := canonICMP TrimSpace Atoi pr]> prs.
Proof.
  intros Hz. unfold escapeICMP_at, canonICMP.
  destruct (passed_over (Name pr)).
  - symmetry. apply list_insert_id, Hz.
  - cbv zeta. rewrite flatten_lines by apply Split_nonempty.
    rewrite Join_Split. reflexivity.
Qed.

(** X11: [icmpv6Parameters.escape(id)] faults exactly when [id] is not
    an index of the registries; otherwise it returns one record for each
    record of that registry, in order: the zero record (which the printer
    leaves out) for a name that mentions Reserved, Unassigned, Deprecated,
    Experiment or experiment, and else the name with its newlines turned
    into spaces and trimmed, the same name through the replacer, and the
    value as a number. *)
Theorem escapeICMP_one_record_each (icp : icmpv6Parameters) (id : Z) :
  (escapeICMP TrimSpace Atoi icp id = None
   <-> id < 0 \/ Z.of_nat (length (Registries icp)) <= id)
  /\ forall registry : icmpv6ParamRegistry,
      0 <= id ->
      Registries icp !! Z.to_nat id = Some registry ->
      escapeICMP TrimSpace Atoi icp id
      = Some (map (canonICMP TrimSpace Atoi) (RegistryRecords registry)).
Proof.
  unfold escapeICMP. split.
  - destruct (Z.ltb_spec id 0) as [Hneg|Hpos].
    + split; [intros _; left; exact Hneg|reflexivity].
    + destruct (Registries icp !! Z.to_nat id) as [registry|] eqn:Hl.
      * split; [discriminate|]. intros [Hlt|Hge]; [lia|].
        apply lookup_lt_Some in Hl. lia.
      * split; [|reflexivity]. intros _. right.
        apply lookup_ge_None in Hl. lia.
  - intros registry Hpos Hl.
    destruct (Z.ltb_spec id 0) as [Hneg|_]; [lia|].
    rewrite Hl. cbv zeta. f_equal.
    apply (fill_slots (canonICMP TrimSpace Atoi) zeroICMP
                      (escapeICMP_at TrimSpace Atoi)
                      escapeICMP_at_slot
                      (RegistryRecords registry) []).
Qed.

Lemma escapeProtocol_at_slot (i : nat) (pr : protocolRecord)
    (prs : list canonProtocolRecord) :
  prs !! i = Some zeroProtocol ->
  escapeProtocol_at TrimSpace Atoi i pr prs
  = <[i := canonProtocol TrimSpace Atoi pr]> prs.
Proof.
  intros _. unfold escapeProtocol_at, canonProtocol. cbv zeta.
  rewrite flatten_lines; [reflexivity|].
  pose proof (Split_nonempty (protoDescr pr) newline) as Hne.
  destruct (Split (protoDescr pr) newline); [contradiction|discriminate].
Qed.

(** X12: [protocolNumbers.escape] returns one record for each record of
    the registry, in order, and never faults: the name as it was read,
    the canonical name ([ISIS] and [MANET] for the two names the code
    singles out, else the trimmed name through the replacer), the
    description as its trimmed lines with one space between them, and
    the value as a number. *)
Theorem escapeProtocol_one_record_each (pn : protocolNumbers) :
  escapeProtocol TrimSpace Atoi pn
  = map (canonProtocol TrimSpace Atoi) (Records pn)
  /\ length (escapeProtocol TrimSpace Atoi pn) = length (Records pn).
Proof.
  assert (H : escapeProtocol TrimSpace Atoi pn
              = map (canonProtocol TrimSpace Atoi) (Records pn)).
  { unfold escapeProtocol. cbv zeta.
    apply (fill_slots (canonProtocol TrimSpace Atoi) zeroProtocol
                      (escapeProtocol_at TrimSpace Atoi)
                      escapeProtocol_at_slot (Records pn) []). }
  split; [exact H|]. rewrite H. apply length_map.
Qed.

Lemma list_ascii_app (s1 s2 : string) :
  list_ascii_of_string (s1 ++ s2)
  = list_ascii_of_string s1 ++ list_ascii_of_string s2.
Proof.
  induction s1 as [|c s1 IH]; simpl; [reflexivity|].
  rewrite IH. reflexivity.
Qed.

(** A byte that the replacer replaces on its own, and that none of its
    new strings brings back, is not in what [Replace] returns. *)
Lemma Replace_from_avoids (oldnew : list (string * string)) (c : ascii) :
  (exists new, In (String c EmptyString, new) oldnew) ->
  (forall old new, In (old, new) oldnew ->
                   ~ In c (list_ascii_of_string new)) ->
  forall (s : string) (skip : nat),
    ~ In c (list_ascii_of_string (Replace_from oldnew skip s)).
Proof.
  intros [new0 Hold] Hnew. induction s as [|a rest IH]; intros skip; simpl.
  - tauto.
  - destruct skip as [|k]; [|apply IH].
    unfold lookup.
    destruct (find _ oldnew) as [[old new]|] eqn:Hfind.
    + apply find_some in Hfind. destruct Hfind as [Hin _].
      rewrite list_ascii_app. intros Hc. apply in_app_or in Hc.
      destruct Hc as [Hc|Hc]; [exact (Hnew old new Hin Hc)|exact (IH _ Hc)].
    + intros [Hc|Hc]; [|exact (IH _ Hc)]. subst a.
      pose proof (find_none _ _ Hfind _ Hold) as Hp. simpl in Hp.
      destruct (ascii_dec c c) as [_|Hne]; [|contradiction].
      destruct rest; discriminate Hp.
Qed.

Lemma replacers_remove (c : ascii) :
  In c removed ->
  (forall s, ~ In c (list_ascii_of_string (Replace icmpReplacer s)))
  /\ (forall s, ~ In c (list_ascii_of_string (Replace protocolReplacer s))).
Proof.
  intros Hc. unfold Replace.
  split; intros s; apply Replace_from_avoids.
  - simpl in Hc.
    destruct Hc as [<-|[<-|[<-|[<-|[<-|[]]]]]]; eexists; simpl; eauto 10.
  - intros old new Hin.
    assert (Hb : forallb
                   (fun p => negb (existsb (Ascii.eqb c)
                                           (list_ascii_of_string (snd p))))
                   icmpReplacer = true).
    { simpl in Hc.
      destruct Hc as [<-|[<-|[<-|[<-|[<-|[]]]]]]; reflexivity. }
    rewrite forallb_forall in Hb. specialize (Hb _ Hin). simpl in Hb.
    intros Hmem. apply negb_true_iff in Hb.
    assert (Ht : existsb (Ascii.eqb c) (list_ascii_of_string new) = true).
    { apply existsb_exists. exists c. split; [exact Hmem|apply Ascii.eqb_refl]. }
    congruence.
  - simpl in Hc.
    destruct Hc as [<-|[<-|[<-|[<-|[<-|[]]]]]]; eexists; simpl; eauto 10.
  - intros old new Hin.
    assert (Hb : forallb
                   (fun p => negb (existsb (Ascii.eqb c)
                                           (list_ascii_of_string (snd p))))
                   protocolReplacer = true).
    { simpl in Hc.
      destruct Hc as [<-|[<-|[<-|[<-|[<-|[]]]]]]; reflexivity. }
    rewrite forallb_forall in Hb. specialize (Hb _ Hin). simpl in Hb.
    intros Hmem. apply negb_true_iff in Hb.
    assert (Ht : existsb (Ascii.eqb c) (list_ascii_of_string new) = true).
    { apply existsb_exists. exists c. split; [exact Hmem|apply Ascii.eqb_refl]. }
    congruence.
Qed.

Lemma escapeICMP_records (icp : icmpv6Parameters) (id : Z)
    (prs : list canonICMPv6ParamRecord) :
  escapeICMP TrimSpace Atoi icp id = Some prs ->
  exists registry : icmpv6ParamRegistry,
    prs = map (canonICMP TrimSpace Atoi) (RegistryRecords registry).
Proof.
  unfold escapeICMP. destruct (id <? 0); [discriminate|].
  destruct (Registries icp !! Z.to_nat id) as [registry|]; [|discriminate].
  cbv zeta. intros [= <-]. exists registry.
  apply (fill_slots (canonICMP TrimSpace Atoi) zeroICMP
                    (escapeICMP_at TrimSpace Atoi)
                    escapeICMP_at_slot
                    (RegistryRecords registry) []).
Qed.

Lemma escapeProtocol_records (pn : protocolNumbers) :
  escapeProtocol TrimSpace Atoi pn
  = map (canonProtocol TrimSpace Atoi) (Records pn).
Proof.
  unfold escapeProtocol. cbv zeta.
  apply (fill_slots (canonProtocol TrimSpace Atoi) zeroProtocol
                    (escapeProtocol_at TrimSpace Atoi)
                    escapeProtocol_at_slot (Records pn) []).
Qed.

(** X13: the names [escape] produces can be used in identifiers: in
    every record that either [escape] returns, the canonical name has no
    plus sign, hyphen, slash, full stop or space, whatever the registry
    said. *)
Theorem escaped_names_have_no_punctuation (c : ascii) :
  In c removed ->
  (forall (icp : icmpv6Parameters) (id : Z)
          (prs : list canonICMPv6ParamRecord) (p : canonICMPv6ParamRecord),
      escapeICMP TrimSpace Atoi icp id = Some prs ->
      In p prs ->
      ~ In c (list_ascii_of_string (canonName p)))
  /\ (forall (pn : protocolNumbers) (p : canonProtocolRecord),
        In p (escapeProtocol TrimSpace Atoi pn) ->
        ~ In c (list_ascii_of_string (cpName p))).
Proof.
  intros Hc. destruct (replacers_remove c Hc) as [Hicmp Hproto]. split.
  - intros icp id prs p Hesc Hin.
    destruct (escapeICMP_records icp id prs Hesc) as [registry ->].
    apply in_map_iff in Hin. destruct Hin as (pr & <- & _).
    unfold canonICMP. destruct (passed_over (Name pr)); simpl.
    + tauto.
    + apply Hicmp.
  - intros pn p Hin.
    rewrite escapeProtocol_records in Hin.
    apply in_map_iff in Hin. destruct Hin as (pr & <- & _).
    unfold canonProtocol; simpl.
    destruct (String.eqb (protoName pr) "ISIS over IPv4").
    + simpl in Hc. simpl.
      destruct Hc as [<-|[<-|[<-|[<-|[<-|[]]]]]];
        intros H; repeat (destruct H as [H|H]; [discriminate H|]);
        contradiction.
    + destruct (String.eqb (protoName pr) "manet").
      * simpl in Hc. simpl.
        destruct Hc as [<-|[<-|[<-|[<-|[<-|[]]]]]];
          intros H; repeat (destruct H as [H|H]; [discriminate H|]);
          contradiction.
      * apply Hproto.
Qed.

End GenProperties.

(** ** Concrete runs *)

Section SinkExamples.
Import sinks syslog fakes.




(** A sink fed metrics only writes nothing. *)
Lemma Write_only_for_log_envelopes_witness :
  exists w : syslog.World,
    syslog.run backoff showDuration
               [MainHead; Input (metricEnvelope "cpu");
                Input (metricEnvelope "mem"); InputClose; SelectItem]
               (syslog.Run_enter backoff (sink0 (mkScripted [] [] 0)))
    = Some w
    /\ pc w = Returned
    /\ List.filter is_write (trace w) = [].
Proof.
  eexists. split; [vm_compute; reflexivity|]. split; [reflexivity|].
  destruct (Write_only_for_log_envelopes backoff showDuration
              (sink0 (mkScripted [] [] 0))) as (Hrun & _).
  edestruct (Hrun [MainHead; Input (metricEnvelope "cpu");
                   Input (metricEnvelope "mem"); InputClose; SelectItem])
    as (_ & _ & Hnone); [vm_compute; reflexivity|].
  apply Hnone. simpl. repeat constructor; discriminate.
Defined.

(** One call before [Run], two during it. *)
Lemma Disconnect_signals_exactly_once_witness :
  exists (s : @syslog.SyslogSink ScriptedWriter) (pre : list Effect)
         (w : syslog.World),
    Disconnect_n 1 (NewSyslogSink "app-1" "syslog://drain" 2
                                  (mkScripted [] [] 0) "doppler")
    = Ok (s, pre)
    /\ syslog.run backoff showDuration
                  [MainHead; CallDisconnect; CallDisconnect; SelectDisconnect]
                  (syslog.Run_enter backoff s)
       = Some w
    /\ disconnectChannel (sink w) = true
    /\ length (List.filter is_close_disconnect (pre ++ trace w)) = 1%nat.
Proof.
  destruct (Disconnect_signals_exactly_once backoff showDuration
              "app-1" "syslog://drain" 2 (mkScripted [] [] 0) "doppler" 1)
    as (s & pre & Hn & Hall).
  exists s, pre.
  assert (Hs : s = mkSink "app-1" "syslog://drain" 2 (mkScripted [] [] 0)
                          true "doppler" true).
  { vm_compute in Hn. injection Hn as <- _. reflexivity. }
  eexists. split; [exact Hn|]. split; [rewrite Hs; vm_compute; reflexivity|].
  edestruct (Hall [MainHead; CallDisconnect; CallDisconnect; SelectDisconnect])
    as (_ & Hch & Hlen & _); [rewrite Hs; vm_compute; reflexivity|].
  split; [exact Hch|exact Hlen].
Defined.

(** A refused connect, then [Disconnect] during the wait. *)
Lemma backoff_wait_ends_on_disconnect_witness :
  exists w w1 w2 : syslog.World,
    syslog.run backoff showDuration [MainHead]
               (syslog.Run_enter backoff
                  (sink0 (mkScripted [Some "refused"] [] 0)))
    = Some w
    /\ pc w = InBackoffSelect
    /\ syslog.step backoff showDuration CallDisconnect w = Some w1
    /\ syslog.step backoff showDuration SelectDisconnect w1 = Some w2
    /\ pc w2 = Returned.
Proof.
  eexists.
  edestruct (backoff_wait_ends_on_disconnect backoff showDuration
               (sink0 (mkScripted [Some "refused"] [] 0)) [MainHead])
    as (w1 & Hs1 & _ & _ & w2 & Hs2 & Hpc & _);
    [reflexivity|vm_compute; reflexivity|reflexivity..|].
  exists w1, w2.
  split; [reflexivity|]. split; [reflexivity|].
  split; [exact Hs1|]. split; [exact Hs2|exact Hpc].
Defined.

(** An ERR message with a timestamp. *)
Lemma Write_gets_priority_and_fields_witness :
  messagePriorityValue
    (Some (mkLogMessage [] (Some LogMessage_ERR) (Some 7) None None)) = 11
  /\ exists (wr' : ScriptedWriter) (err : option error),
      sendLogMessage (mkScripted [] [] 0)
        (Some (mkLogMessage [] (Some LogMessage_ERR) (Some 7) None None))
      = Ok (wr', EvWrite 11 [] EmptyString EmptyString 7 err, err).
Proof.
  destruct (Write_gets_priority_and_fields (W := ScriptedWriter)
              backoff showDuration
              (mkLogMessage [] (Some LogMessage_ERR) (Some 7) None None) 7
              eq_refl)
    as (Hsend & _ & _ & Herr & _).
  split; [apply Herr; reflexivity|].
  destruct (Hsend (mkScripted [] [] 0)) as (wr' & n & err & _ & Hcall).
  exists wr', err. exact Hcall.
Defined.

(** X1's scenario: connect, write one message, disconnect. *)
Lemma writer_calls_in_order_witness :
  exists w : syslog.World,
    syslog.run backoff showDuration
               [MainHead; Input (logEnvelope [] LogMessage_OUT 5); SelectItem;
                MainHead; CallDisconnect; SelectDisconnect]
               (syslog.Run_enter backoff (sink0 (mkScripted [] [] 0)))
    = Some w
    /\ pc w = Returned
    /\ link_run Disconnected (trace w) = Some LinkClosed
    /\ length (List.filter
                 (fun e => match e with EvClose => true | _ => false end)
                 (trace w)) = 1%nat.
Proof.
  eexists. split; [vm_compute; reflexivity|]. split; [reflexivity|].
  edestruct (writer_calls_in_order backoff showDuration
               (sink0 (mkScripted [] [] 0))
               [MainHead; Input (logEnvelope [] LogMessage_OUT 5); SelectItem;
                MainHead; CallDisconnect; SelectDisconnect])
    as (Hlink & _ & _ & Hclose); [vm_compute; reflexivity|].
  split; [exact Hlink|exact Hclose].
Defined.

(** A sink that was disconnected before [Run] began still dials once. *)
Lemma Run_dials_before_it_returns_witness :
  exists w : syslog.World,
    syslog.run backoff showDuration [MainHead; SelectDisconnect]
               (syslog.Run_enter backoff
                  (mkSink "app-1" "syslog://drain" 2 (mkScripted [] [] 0)
                          true "doppler" true))
    = Some w
    /\ pc w = Returned
    /\ existsb is_connect (trace w) = true.
Proof.
  eexists. split; [vm_compute; reflexivity|]. split; [reflexivity|].
  eapply (Run_dials_before_it_returns backoff showDuration
            (mkSink "app-1" "syslog://drain" 2 (mkScripted [] [] 0)
                    true "doppler" true)
            [MainHead; SelectDisconnect]);
    [vm_compute; reflexivity|reflexivity].
Defined.

(** A log-kind envelope with no log message in it. *)
Lemma log_envelope_without_timestamp_faults_witness :
  exists w : syslog.World,
    syslog.run backoff showDuration
               [MainHead;
                Input (mkEnvelope "origin" Envelope_LogMessage None None)]
               (syslog.Run_enter backoff (sink0 (mkScripted [] [] 0)))
    = Some w
    /\ exists w' : syslog.World,
        syslog.step backoff showDuration SelectItem w = Some w'
        /\ crashed w' = Some NilDereference
        /\ closeCount (syslogWriter (sink w')) = 1%nat
        /\ forall l : Label, syslog.step backoff showDuration l w' = None.
Proof.
  eexists. split; [vm_compute; reflexivity|].
  match goal with
  | |- exists w', syslog.step _ _ _ ?w = _ /\ _ =>
      edestruct (log_envelope_without_timestamp_faults backoff showDuration w
                   (mkEnvelope "origin" Envelope_LogMessage None None))
        as (w' & Hstep & Hcrash & _ & Hwr & Hstuck);
        [reflexivity|reflexivity|vm_compute; reflexivity|reflexivity
        |exact I|]
  end.
  exists w'. split; [exact Hstep|]. split; [exact Hcrash|].
  split; [rewrite Hwr; reflexivity|exact Hstuck].
Defined.

(** Two refused connects: the timer was set for attempt 0, then 1. *)
Lemma backoff_follows_attempts_witness :
  exists w : syslog.World,
    syslog.run backoff showDuration
               [MainHead; TimerFire; SelectTimer; MainHead]
               (syslog.Run_enter backoff
                  (sink0 (mkScripted [Some "refused"; Some "refused"] [] 0)))
    = Some w
    /\ timer_resets (trace w) = [backoff 0; backoff 1].
Proof.
  eexists. split; [vm_compute; reflexivity|].
  etransitivity;
    [eapply (backoff_follows_attempts backoff showDuration
               (sink0 (mkScripted [Some "refused"; Some "refused"] [] 0))
               [MainHead; TimerFire; SelectTimer; MainHead]);
       [vm_compute; reflexivity|reflexivity]
    |reflexivity].
Defined.

(** One refused connect and one failed write. *)
Lemma attempt_counter_bounded_witness :
  exists w : syslog.World,
    syslog.run backoff showDuration
               [MainHead; TimerFire; SelectTimer; MainHead;
                Input (logEnvelope [] LogMessage_OUT 5); SelectItem]
               (syslog.Run_enter backoff
                  (sink0 (mkScripted [Some "refused"] [Some "broken pipe"] 0)))
    = Some w
    /\ failures (trace w) = 2%nat
    /\ 0 <= numberOfTries w <= 2.
Proof.
  eexists. split; [vm_compute; reflexivity|]. split; [reflexivity|].
  eapply (attempt_counter_bounded backoff showDuration
            (sink0 (mkScripted [Some "refused"] [Some "broken pipe"] 0))
            [MainHead; TimerFire; SelectTimer; MainHead;
             Input (logEnvelope [] LogMessage_OUT 5); SelectItem]);
    [vm_compute; reflexivity|cbn; unfold int_max; lia].
Defined.

(** After [Disconnect], the return of [Run] and the exit of the filter
    goroutine, no input is taken and the timer stays silent. *)
Lemma disconnected_sink_is_quiescent_witness :
  exists w : syslog.World,
    syslog.run backoff showDuration
               [MainHead; CallDisconnect; SelectDisconnect; FilterDisconnect]
               (syslog.Run_enter backoff (sink0 (mkScripted [] [] 0)))
    = Some w
    /\ syslog.step backoff showDuration
                   (Input (logEnvelope [] LogMessage_OUT 5)) w = None
    /\ syslog.step backoff showDuration TimerFire w = None
    /\ syslog.step backoff showDuration MainHead w = None.
Proof.
  eexists. split; [vm_compute; reflexivity|].
  match goal with
  | |- syslog.step _ _ _ ?w = _ /\ _ =>
      pose proof (@disconnected_sink_is_quiescent ScriptedWriter scripted_writer
                    backoff showDuration
                    (sink0 (mkScripted [] [] 0))
                    [MainHead; CallDisconnect; SelectDisconnect;
                     FilterDisconnect]
                    w eq_refl ltac:(vm_compute; reflexivity)
                    eq_refl eq_refl eq_refl) as Hq
  end.
  split; [|split].
  - match goal with
    | |- ?x = None => destruct x as [w'|] eqn:Hs; [|reflexivity]
    end.
    destruct (Hq _ _ Hs) as [Hl _]. discriminate Hl.
  - match goal with
    | |- ?x = None => destruct x as [w'|] eqn:Hs; [|reflexivity]
    end.
    destruct (Hq _ _ Hs) as [Hl _]. discriminate Hl.
  - match goal with
    | |- ?x = None => destruct x as [w'|] eqn:Hs; [|reflexivity]
    end.
    destruct (Hq _ _ Hs) as [Hl _]. discriminate Hl.
Defined.

(** A sink that failed to connect, waited and was disconnected. *)
Lemma sink_identity_is_stable_witness :
  exists w : syslog.World,
    syslog.run backoff showDuration
               [MainHead; CallDisconnect; SelectDisconnect]
               (syslog.Run_enter backoff
                  (sink0 (mkScripted [Some "refused"] [] 0)))
    = Some w
    /\ Identifier (sink w) = "syslog://drain"
    /\ StreamId (sink w) = "app-1".
Proof.
  eexists. split; [vm_compute; reflexivity|].
  edestruct (sink_identity_is_stable backoff showDuration
               (sink0 (mkScripted [Some "refused"] [] 0))
               [MainHead; CallDisconnect; SelectDisconnect])
    as (Hid & Hstream & _); [vm_compute; reflexivity|].
  split; [exact Hid|exact Hstream].
Defined.

End SinkExamples.

Section ListenerExamples.
Import eventlistener fakes.

(** Two datagrams, the first already taken by the consumer. *)
Lemma datagrams_published_once_in_order_witness :
  match
    eventlistener.run
      [Listen (inl 3%nat); StoreConnection;
       Datagram [Byte.x68; Byte.x69] "10.0.0.1:4000"; Publish;
       Datagram [Byte.x6f; Byte.x6b; Byte.x21] "10.0.0.2:4000"; Publish;
       Receive]
      (init (New "0.0.0.0:3457" "dropsondeListener" ([] : list Addr)))
  with
  | Some w =>
      map (load (heap w)) (published w ++ in_flight (pc w))
      = [[Byte.x68; Byte.x69]; [Byte.x6f; Byte.x6b; Byte.x21]]
      /\ received w ++ dataChannel (listener w) = published w
      /\ metrics (listener w) = (1, 2, 5)
  | None => False
  end.
Proof.
  assert (Hsome :
    match
      eventlistener.run
        [Listen (inl 3%nat); StoreConnection;
         Datagram [Byte.x68; Byte.x69] "10.0.0.1:4000"; Publish;
         Datagram [Byte.x6f; Byte.x6b; Byte.x21] "10.0.0.2:4000"; Publish;
         Receive]
        (init (New "0.0.0.0:3457" "dropsondeListener" ([] : list Addr)))
    with
    | Some w =>
        bool_decide (metrics (listener w) = (1, 2, 5))
    | None => false
    end = true) by (vm_compute; reflexivity).
  destruct (eventlistener.run _ _) as [w|] eqn:Hrun; [|discriminate Hsome].
  destruct (datagrams_published_once_in_order _ _ _ _ w Hrun)
    as (_ & Hsame & Hlen & _ & _ & _ & Hchan & _).
  split.
  - apply Hsame. simpl datagrams.
    repeat (constructor; [apply Nat.leb_le; vm_compute; reflexivity|]).
    constructor.
  - split; [symmetry; exact Hchan|].
    apply bool_decide_eq_true in Hsome. exact Hsome.
Defined.

(** The scenario of the liveness tracker: a new sender, its [Start], and
    a second datagram from the same sender. *)
Lemma Start_spawned_iff_not_known_witness :
  match
    eventlistener.run
      [Listen (inl 3%nat); StoreConnection;
       Datagram [Byte.x68] "10.0.0.1:4000"; Publish; RunStart 0;
       Datagram [Byte.x69] "10.0.0.1:4000"; Publish]
      (init (New "0.0.0.0:3457" "dropsondeListener" ([] : list Addr)))
  with
  | Some w =>
      calls w = [CallKnownAndReset "10.0.0.1:4000" false;
                 GoStart "10.0.0.1:4000" 3%nat;
                 CallKnownAndReset "10.0.0.1:4000" true]
      /\ length (List.filter (is_start_for "10.0.0.1:4000") (calls w))
         = length (List.filter (is_unknown_for "10.0.0.1:4000") (calls w))
      /\ length (List.filter is_check (calls w)) = 2%nat
  | None => False
  end.
Proof.
  assert (Hsome :
    option_map calls
      (eventlistener.run
         [Listen (inl 3%nat); StoreConnection;
          Datagram [Byte.x68] "10.0.0.1:4000"; Publish; RunStart 0;
          Datagram [Byte.x69] "10.0.0.1:4000"; Publish]
         (init (New "0.0.0.0:3457" "dropsondeListener" ([] : list Addr))))
    = Some [CallKnownAndReset "10.0.0.1:4000" false;
            GoStart "10.0.0.1:4000" 3%nat;
            CallKnownAndReset "10.0.0.1:4000" true])
    by (vm_compute; reflexivity).
  destruct (eventlistener.run _ _) as [w|] eqn:Hrun; [|discriminate Hsome].
  destruct (Start_spawned_iff_not_known (R := list Addr)) as (_ & _ & Hall).
  destruct (Hall _ _ w "10.0.0.1:4000" Hrun) as (Hcount & Hchecks).
  simpl in Hsome. injection Hsome as Hcalls.
  split; [exact Hcalls|]. split; [exact Hcount|exact Hchecks].
Defined.

(** [Stop] on a new listener, and after [Start] has stored the connection. *)
Lemma Stop_before_Start_faults_witness :
  Stop (init (New "0.0.0.0:3457" "dropsondeListener" ([] : list Addr)))
  = Panic NilDereference
  /\ match
       eventlistener.run [Listen (inl 3%nat); StoreConnection]
         (init (New "0.0.0.0:3457" "dropsondeListener" ([] : list Addr)))
     with
     | Some w =>
         exists w' : eventlistener.World,
           Stop w = Ok w' /\ connClosed w' = true
     | None => False
     end.
Proof.
  destruct (Stop_before_Start_faults
              "0.0.0.0:3457" "dropsondeListener" ([] : list Addr))
    as (Hfault & Hall).
  split; [exact Hfault|].
  assert (Hsome :
    match
      eventlistener.run [Listen (inl 3%nat); StoreConnection]
        (init (New "0.0.0.0:3457" "dropsondeListener" ([] : list Addr)))
    with Some _ => true | None => false end = true)
    by (vm_compute; reflexivity).
  destruct (eventlistener.run _ _) as [w|] eqn:Hrun; [|discriminate Hsome].
  destruct (Hall _ w Hrun) as (_ & Hbound).
  destruct (Hbound eq_refl) as (w' & Hstop & Hclosed & _).
  exists w'. split; [exact Hstop|exact Hclosed].
Defined.

(** Two datagrams of 2 and 3 bytes: 2 messages, 5 bytes. *)
Lemma metrics_are_exact_witness :
  match
    eventlistener.run
      [Listen (inl 3%nat); StoreConnection;
       Datagram [Byte.x68; Byte.x69] "10.0.0.1:4000"; Publish;
       Datagram [Byte.x6f; Byte.x6b; Byte.x21] "10.0.0.2:4000"; Publish;
       Receive]
      (init (New "0.0.0.0:3457" "dropsondeListener" ([] : list Addr)))
  with
  | Some w =>
      snd (fst (metrics (listener w))) = 2
      /\ snd (metrics (listener w)) = 5
      /\ fst (Emit (listener w)) = "dropsondeListener"
  | None => False
  end.
Proof.
  assert (Hsome :
    match
      eventlistener.run
        [Listen (inl 3%nat); StoreConnection;
         Datagram [Byte.x68; Byte.x69] "10.0.0.1:4000"; Publish;
         Datagram [Byte.x6f; Byte.x6b; Byte.x21] "10.0.0.2:4000"; Publish;
         Receive]
        (init (New "0.0.0.0:3457" "dropsondeListener" ([] : list Addr)))
    with
    | Some _ => true
    | None => false
    end = true) by (vm_compute; reflexivity).
  destruct (eventlistener.run _ _) as [w|] eqn:Hrun; [|discriminate Hsome].
  destruct (metrics_are_exact _ _ _ _ w Hrun) as (Hm & _ & He).
  rewrite He, Hm. cbn [fst snd].
  split; [vm_compute; reflexivity|].
  split; [vm_compute; reflexivity|reflexivity].
Defined.



End ListenerExamples.

Section GenExamples.
Import Ascii ipv6gen fakes.

(** The type registry is registry 1; there is no registry 2.  The record
    for private experimentation is passed over and leaves its slot empty. *)
Lemma escapeICMP_one_record_each_witness :
  escapeICMP trimSpace atoi icmpRegistry 1
  = Some [mkCanonICMP "Destination Unreachable" "DestinationUnreachable" 1;
          mkCanonICMP EmptyString EmptyString 0;
          mkCanonICMP "Multicast Listener Query" "MulticastListenerQuery" 130;
          mkCanonICMP "ICMP Node Information Query" "NodeInformationQuery"
                      139]
  /\ escapeICMP trimSpace atoi icmpRegistry 2 = None.
Proof.
  destruct (escapeICMP_one_record_each trimSpace atoi icmpRegistry 1)
    as [_ Hsome].
  destruct (escapeICMP_one_record_each trimSpace atoi icmpRegistry 2)
    as [Hnone _].
  split.
  - rewrite (Hsome _ ltac:(lia) eq_refl). vm_compute. reflexivity.
  - apply Hnone. right. simpl. lia.
Defined.

(** The hyphen of IPv6-Route is gone from the constant's name. *)
Lemma escaped_names_have_no_punctuation_witness :
  map cpName (escapeProtocol trimSpace atoi protocolRegistry)
  = ["IPv6Route"; "ISIS"]
  /\ forall p : canonProtocolRecord,
      In p (escapeProtocol trimSpace atoi protocolRegistry) ->
      ~ In "-"%char (list_ascii_of_string (cpName p)).
Proof.
  split; [vm_compute; reflexivity|].
  apply (escaped_names_have_no_punctuation trimSpace atoi "-"%char).
  simpl. tauto.
Defined.

End GenExamples.
